(** * Arbitrum agent: session store, operation executors, batch transfers
      and the agent/tools turn loop of [arbitrumagent/arbitrumAgent.ts].

    The program is embedded as functions over an explicit [World]: the
    wallet held by [BlockchainTools], the process-wide [tokenMap], and the
    list of calls made so far to the chain, signing and HTTP layers.
    Library functions the program calls ([ethers.isAddress], [Number],
    [ethers.parseEther], ...) and the answers of the remote endpoints are
    parameters, gathered in [Lib] and [Env]. *)

From stdpp Require Import gmap strings list fin_maps pretty.
From Equations Require Import Equations.
From Equations.Prop Require Import Logic.
From Stdlib Require Import Ascii ZArith Lia.

(** ** JavaScript strings, numbers and plain objects *)

(** Strings are sequences of 8-bit code units; the case and white-space
    functions below are the ASCII part of the ECMAScript ones and leave
    every other code unit alone. *)

Definition upper_ascii (c : ascii) : ascii :=
  let n := nat_of_ascii c in
  if (97 <=? n) && (n <=? 122) then ascii_of_nat (n - 32) else c.

Definition lower_ascii (c : ascii) : ascii :=
  let n := nat_of_ascii c in
  if (65 <=? n) && (n <=? 90) then ascii_of_nat (n + 32) else c.

Fixpoint toUpperCase (s : string) : string :=
  match s with
  | EmptyString => EmptyString
  | String c s' => String (upper_ascii c) (toUpperCase s')
  end.

Fixpoint toLowerCase (s : string) : string :=
  match s with
  | EmptyString => EmptyString
  | String c s' => String (lower_ascii c) (toLowerCase s')
  end.

(** [s.trimStart()], [s.trimEnd()] and [s.trim()]. *)
Fixpoint trimStart (s : string) : string :=
  match s with
  | EmptyString => EmptyString
  | String c s' => if Ascii.is_space c then trimStart s' else s
  end.

Definition trimEnd (s : string) : string :=
  String.rev (trimStart (String.rev s)).

Definition trim (s : string) : string := trimEnd (trimStart s).

(** [s.split(sep)] for a one-character separator: every occurrence of the
    separator ends a piece, so two separators in a row give an empty piece
    and the empty string gives one empty piece. *)
Fixpoint split (sep : ascii) (s : string) : list string :=
  match s with
  | EmptyString => [EmptyString]
  | String c s' =>
      if decide (c = sep) then EmptyString :: split sep s'
      else match split sep s' with
           | piece :: pieces => String c piece :: pieces
           | [] => [String c EmptyString]
           end
  end.

(** [`${v}`] for a value that may be [undefined]. *)
Definition show_opt (v : option string) : string :=
  match v with Some s => s | None => "undefined" end.

(** JavaScript numbers, as far as the program looks at them: not-a-number,
    an infinity, or the finite value [mantissa * 2 ^ exponent]. *)
Inductive JsNumber :=
| NaN
| Infinity (negative : bool)
| Finite (mantissa exponent : Z).

Definition isNaN (x : JsNumber) : bool :=
  match x with NaN => true | _ => false end.

(** [x <= 0]; every comparison with [NaN] is false. *)
Definition le_zero (x : JsNumber) : bool :=
  match x with
  | NaN => false
  | Infinity negative => negative
  | Finite m _ => (m <=? 0)%Z
  end.

(** What reading a property of a plain object (created by [{}]) gives:
    nothing, a string the program stored, or something inherited from
    [Object.prototype]. *)
Inductive PropValue :=
| Undefined
| OwnString (s : string)
| Inherited.

Definition truthy (v : PropValue) : bool :=
  match v with
  | Undefined => false
  | OwnString s => bool_decide (s ≠ EmptyString)
  | Inherited => true
  end.

(** The property names every plain object inherits. *)
Definition objectPrototypeKeys : list string :=
  [ "constructor"; "__proto__"; "hasOwnProperty"; "isPrototypeOf";
    "propertyIsEnumerable"; "toLocaleString"; "toString"; "valueOf";
    "__defineGetter__"; "__defineSetter__"; "__lookupGetter__";
    "__lookupSetter__" ].

(** ** The token map: [const tokenMap: { [name: string]: string } = {}] *)

(** The own properties are a finite map. [tokenMap[k]] falls back to the
    prototype for a name that is not an own property, and ["__proto__"] is
    an accessor of the prototype: reading it never gives an own property and
    assigning a string to it changes nothing. *)
Definition tm_get (m : gmap string string) (k : string) : PropValue :=
  if decide (k = "__proto__") then Inherited
  else match m !! k with
       | Some v => OwnString v
       | None => if decide (k ∈ objectPrototypeKeys) then Inherited else Undefined
       end.

Definition tm_set (m : gmap string string) (k v : string) : gmap string string :=
  if decide (k = "__proto__") then m else <[k:=v]> m.

(** [k] is an own key of the object, as [Object.entries] lists them. *)
Definition tm_own (m : gmap string string) (k : string) : Prop :=
  k ≠ "__proto__" ∧ is_Some (m !! k).

(** ** The world the operations run in *)

Record Wallet := mkWallet { privateKey : string; address : string }.

(** A transaction request handed to [wallet.sendTransaction]. *)
Record Tx := mkTx { tx_to : string; tx_value : Z; tx_nonce : option Z }.

(** Which code path issued a submission: a single-transfer operation or the
    item at a given (0-based) position of a batch. *)
Inductive Origin :=
| Single
| BatchItem (index : nat).

(** The calls the program makes to the chain endpoint, to the signing layer
    and to the price service. *)
Inductive Call :=
| CGetNonce (addr : string)
| CSendTransaction (origin : Origin) (tx : Tx)
| CContractTransfer (origin : Origin) (contract recipient : string) (value nonce : Z)
| CWait (hash : string)
| CGetBalance (addr : string)
| CBalanceOf (contract addr : string)
| CGetBlockNumber
| CGetLogs (fromBlock toBlock : Z) (addr : string)
| CGetFeeData
| CSignMessage (message : string)
| CDeploy (name symbol : string) (supply : JsNumber)
| CWaitForDeployment (contract : string)
| CHttpGet (url : string).

Record World := mkWorld {
  wallet : option Wallet;          (* BlockchainTools.wallet *)
  tokenMap : gmap string string;   (* the global tokenMap *)
  calls : list Call                (* calls made so far, oldest first *)
}.

(** An answer of a library function or of a remote endpoint: a value, or an
    exception with the text [error.message] (or [String(error)]). *)
Inductive Result (A : Type) :=
| Ok (a : A)
| Err (msg : string).
Arguments Ok {A} a.
Arguments Err {A} msg.

(** An entry of the logs returned by [provider.getLogs]. *)
Record LogEntry := mkLog { log_transactionHash : string; log_blockNumber : Z; log_data : string }.

(** Library and language functions used by the program, and the texts of
    the graph library. *)
Record Lib := mkLib {
  isAddress : string -> bool;                 (* ethers.isAddress on a string *)
  Number : string -> JsNumber;                (* Number(s) *)
  parseInt : string -> JsNumber;              (* parseInt(s) *)
  parseEther : string -> Result Z;            (* ethers.parseEther *)
  parseUnits0 : string -> Result Z;           (* ethers.parseUnits(s, 0) *)
  formatEther : Z -> string;
  formatGwei : Z -> string;                   (* ethers.formatUnits(v, "gwei") *)
  newWallet : string -> Result Wallet;        (* new ethers.Wallet(key, provider) *)
  contractTargetError : string;               (* text of the error of new ethers.Contract on a non-address *)
  stringifyTxs : list (string * Z * string) -> string;  (* JSON.stringify(txs, null, 2) *)
  showPosition : nat -> string;               (* the text of i / 3 + 1 *)
  objectEntries : gmap string string -> list (string * string);
    (* Object.entries(tokenMap): the own entries in the order the object
       holds them, its creation order, which the finite map does not record *)
  toolErrorContent : string -> string;
    (* the content of the tool message the prebuilt tools node makes of the
       message of an error an operation threw *)
  graphRecursionError : string
    (* the message of the GraphRecursionError of the graph library *)
}.

(** The remote endpoints. Each answer may depend on the calls made before. *)
Record Env := mkEnv {
  env_getNonce : list Call -> string -> Result Z;
  env_sendTransaction : list Call -> Wallet -> Tx -> Result string;
  env_contractTransfer : list Call -> Wallet -> string -> string -> Z -> Z -> Result string;
  env_wait : list Call -> string -> Result (option string);
  env_getBalance : list Call -> string -> Result Z;
  env_balanceOf : list Call -> string -> string -> Result Z;
  env_getBlockNumber : list Call -> Result Z;
  env_getLogs : list Call -> Z -> Z -> string -> Result (list LogEntry);
  env_getFeeData : list Call -> Result (option Z);
  env_signMessage : list Call -> Wallet -> string -> Result string;
  env_deploy : list Call -> Wallet -> string -> string -> JsNumber -> Result string;
  env_waitForDeployment : list Call -> string -> Result unit;
  env_httpGet : list Call -> string -> Result (option string)
}.

(** ** A state and exception monad for [async] methods *)

Inductive Res (A : Type) :=
| Val (a : A)
| Exn (msg : string).
Arguments Val {A} a.
Arguments Exn {A} msg.

Definition M (A : Type) : Type := World -> Res A * World.

Definition ret {A} (a : A) : M A := fun σ => (Val a, σ).

Definition throw {A} (msg : string) : M A := fun σ => (Exn msg, σ).

Definition bind {A B} (c : M A) (k : A -> M B) : M B :=
  fun σ => match c σ with
           | (Val a, σ') => k a σ'
           | (Exn e, σ') => (Exn e, σ')
           end.

(** [try { body } catch (error) { handler(message of error) }] *)
Definition tryCatch {A} (body : M A) (handler : string -> M A) : M A :=
  fun σ => match body σ with
           | (Val a, σ') => (Val a, σ')
           | (Exn e, σ') => handler e σ'
           end.

Notation "x <- c ;; k" := (bind c (fun x => k))
  (at level 100, c at next level, right associativity).

(** A pure library call that may throw. *)
Definition liftResult {A} (r : Result A) : M A :=
  match r with Ok a => ret a | Err e => throw e end.

(** A call to a remote endpoint: it is recorded, then it answers. *)
Definition remote {A} (c : Call) (answer : list Call -> Result A) : M A :=
  fun σ =>
    let σ' := mkWorld (wallet σ) (tokenMap σ) (calls σ ++ [c]) in
    match answer (calls σ) with
    | Ok a => (Val a, σ')
    | Err e => (Exn e, σ')
    end.

(** [BlockchainTools]: [getWallet], [setWallet], [clearWallet]. *)
Definition getWallet : M (option Wallet) := fun σ => (Val (wallet σ), σ).

Definition setWallet (w : Wallet) : M unit :=
  fun σ => (Val tt, mkWorld (Some w) (tokenMap σ) (calls σ)).

Definition clearWallet : M unit :=
  fun σ => (Val tt, mkWorld None (tokenMap σ) (calls σ)).

Definition getTokenMap : M (gmap string string) := fun σ => (Val (tokenMap σ), σ).

(** [tokenMap[k] = v] *)
Definition setToken (k v : string) : M unit :=
  fun σ => (Val tt, mkWorld (wallet σ) (tm_set (tokenMap σ) k v) (calls σ)).

Definition ARBITRUM_EXPLORER_URL : string := "https://sepolia.arbiscan.io".
Definition ARBITRUM_FAUCET_URL : string := "https://faucet.triangleplatform.com/arbitrum/sepolia".

Definition nl : string := String "010"%char EmptyString.
Definition dquote : string := String "034"%char EmptyString.

(** [pieces.join(sep)] *)
Fixpoint join (sep : string) (pieces : list string) : string :=
  match pieces with
  | [] => EmptyString
  | [piece] => piece
  | piece :: rest => piece +:+ sep +:+ join sep rest
  end.

(** [logs.slice(0, count)] for an integer [count]: a negative count is
    taken from the end of the array. *)
Definition slice0 {A} (l : list A) (count : Z) : list A :=
  if (0 <=? count)%Z then take (Z.to_nat count) l
  else take (Z.to_nat (Z.of_nat (length l) + count)) l.

(** ** Transfer items and the replies of the batch operation *)

Record Transfer := mkTransfer {
  t_type : string;
  t_to : string;
  t_amount : string;
  t_tokenName : option string
}.

Inductive Status :=
| Successful (hash : string)
| Failed (errorMsg : string).

(** One element of [results]: the number printed in front of it
    ([index + 1]), the asset label, the recipient, the amount and the
    outcome. *)
Record Entry := mkEntry {
  e_number : nat;
  e_label : string;
  e_to : string;
  e_amount : string;
  e_status : Status
}.

(** What [BatchMixedTransferTool._call] returns, before it is printed by
    [renderReply]. *)
Inductive BatchReply :=
| NoWallet
| InvalidFormat
| MissingTokenName (i : nat)
| TokenNotFound (tokenName : string)
| InvalidType (type : string)
| InvalidAddress (to : option string)
| InvalidAmount (amount : option string)
| Summary (results : list Entry).

(** The outcome of one round of the parsing loop: an early [return] of the
    whole operation, or a pushed item together with the extra increment of
    [i] made by the round ([i++] for a [TOKEN] item). *)
Inductive Parsed :=
| Reject (reply : BatchReply)
| Accept (item : Transfer) (extra : nat).

(** ** The operations ([_call] of every tool) *)

Section Operations.
Context (lib : Lib) (env : Env).

(** [SetWalletTool._call] *)
Definition SetWalletTool_call (key : string) : M string :=
  tryCatch
    (w <- liftResult (newWallet lib key) ;;
     _ <- setWallet w ;;
     ret ("Wallet set to address: " +:+ address w))
    (fun e => throw ("Failed to set wallet: " +:+ e)).

(** [DisconnectWalletTool._call] *)
Definition DisconnectWalletTool_call : M string :=
  _ <- clearWallet ;;
  ret "Wallet disconnected successfully".

(** [GetWalletAddressTool._call] *)
Definition GetWalletAddressTool_call : M string :=
  current <- getWallet ;;
  match current with
  | None => ret "No wallet set. Please provide a private key."
  | Some w => ret (address w)
  end.

(** The loop over [Object.entries(tokenMap)] of [GetBalanceTool._call]. *)
Fixpoint tokenBalances (w : Wallet) (entries : list (string * string))
    (balances : list string) : M (list string) :=
  match entries with
  | [] => ret balances
  | (tokenName, tokenAddress) :: rest =>
      balances' <-
        tryCatch
          (balance <- remote (CBalanceOf tokenAddress (address w))
                        (fun h => env_balanceOf env h tokenAddress (address w)) ;;
           ret (balances ++ [tokenName +:+ " Balance: " +:+ pretty balance +:+ " " +:+ tokenName]))
          (fun _ => ret (balances ++ [tokenName +:+ " Balance: Unable to fetch"])) ;;
      tokenBalances w rest balances'
  end.

(** [GetBalanceTool._call] *)
Definition GetBalanceTool_call : M string :=
  current <- getWallet ;;
  match current with
  | None => ret "No wallet set."
  | Some w =>
      ethBalance <- remote (CGetBalance (address w))
                      (fun h => env_getBalance env h (address w)) ;;
      tm <- getTokenMap ;;
      balances <- tokenBalances w (objectEntries lib tm)
                    ["ETH Balance: " +:+ formatEther lib ethBalance +:+ " ETH"] ;;
      ret (if decide (0 < length balances) then join nl balances
           else "No balances available.")
  end.

(** [TransferTokensTool._call] *)
Definition TransferTokensTool_call (to amount : string) : M string :=
  current <- getWallet ;;
  match current with
  | None => ret "No wallet set."
  | Some w =>
      tryCatch
        (value <- liftResult (parseEther lib amount) ;;
         hash <- remote (CSendTransaction Single (mkTx to value None))
                   (fun h => env_sendTransaction env h w (mkTx to value None)) ;;
         _ <- remote (CWait hash) (fun h => env_wait env h hash) ;;
         ret ("Transferred " +:+ amount +:+ " ETH to " +:+ to +:+ ". Tx: "
              +:+ ARBITRUM_EXPLORER_URL +:+ "/tx/" +:+ hash))
        (fun e => throw ("Failed to transfer tokens: " +:+ e))
  end.

(** [SignMessageTool._call] *)
Definition SignMessageTool_call (message : string) : M string :=
  current <- getWallet ;;
  match current with
  | None => ret "No wallet set."
  | Some w =>
      tryCatch
        (signature <- remote (CSignMessage message)
                        (fun h => env_signMessage env h w message) ;;
         ret ("Message signed: " +:+ signature))
        (fun e => throw ("Failed to sign message: " +:+ e))
  end.

(** [GetTransactionHistoryTool._call], for an integer [count]. *)
Definition GetTransactionHistoryTool_call (count : Z) : M string :=
  current <- getWallet ;;
  match current with
  | None => ret "No wallet set."
  | Some w =>
      blockNumber <- remote CGetBlockNumber (env_getBlockNumber env) ;;
      let fromBlock := Z.max (blockNumber - 99) 0 in
      tryCatch
        (logs <- remote (CGetLogs fromBlock blockNumber (address w))
                   (fun h => env_getLogs env h fromBlock blockNumber (address w)) ;;
         let recentTxs :=
           map (fun log => (ARBITRUM_EXPLORER_URL +:+ "/tx/" +:+ log_transactionHash log,
                            log_blockNumber log, log_data log))
               (slice0 logs count) in
         ret ("Recent " +:+ pretty count +:+ " transactions:" +:+ nl
              +:+ stringifyTxs lib recentTxs))
        (fun e => ret ("Failed to fetch transaction history: " +:+ e))
  end.

(** [GetGasPriceTool._call]; [!gasPrice] holds for [null] and for [0n]. *)
Definition GetGasPriceTool_call : M string :=
  gasPrice <- remote CGetFeeData (env_getFeeData env) ;;
  match gasPrice with
  | None => ret "Unable to fetch gas price."
  | Some g =>
      if decide (g = 0%Z) then ret "Unable to fetch gas price."
      else ret ("Current gas price: " +:+ formatGwei lib g +:+ " gwei")
  end.

(** [GetTokenPriceTool._call]; the price service answers with the printed
    [usd] field when it is present and truthy. *)
Definition GetTokenPriceTool_call (token : string) : M string :=
  tryCatch
    (price <- remote
                (CHttpGet ("https://api.coingecko.com/api/v3/simple/price?ids="
                           +:+ toLowerCase token +:+ "&vs_currencies=usd"))
                (fun h => env_httpGet env h
                            ("https://api.coingecko.com/api/v3/simple/price?ids="
                             +:+ toLowerCase token +:+ "&vs_currencies=usd")) ;;
     match price with
     | None => ret ("Price not found for " +:+ token)
     | Some usd => ret ("Price of " +:+ token +:+ ": $" +:+ usd +:+ " USD")
     end)
    (fun e => throw ("Failed to fetch price: " +:+ e)).

(** [GetTrendingTokensTool._call] *)
Definition GetTrendingTokensTool_call : M string :=
  let field k v := "    " +:+ dquote +:+ k +:+ dquote +:+ ": " +:+ dquote +:+ v +:+ dquote in
  let object token price :=
    "  {" +:+ nl +:+ field "token" token +:+ "," +:+ nl
    +:+ field "price" price +:+ nl +:+ "  }" in
  ret ("Trending tokens on Arbitrum Sepolia (mocked):" +:+ nl
       +:+ "[" +:+ nl +:+ object "TEST1" "$0.05" +:+ "," +:+ nl
       +:+ object "TEST2" "$0.10" +:+ nl +:+ "]").

(** [CreateTokenTool._call]; the deployed contract is known by its address. *)
Definition CreateTokenTool_call (name symbol totalSupply : string) : M string :=
  current <- getWallet ;;
  match current with
  | None => ret "No wallet set. Please set a wallet first."
  | Some w =>
      tryCatch
        (let totalSupplyNum := parseInt lib totalSupply in
         if isNaN totalSupplyNum || le_zero totalSupplyNum
         then throw "Invalid total supply: must be a positive number"
         else
           contractAddress <- remote (CDeploy name symbol totalSupplyNum)
                                (fun h => env_deploy env h w name symbol totalSupplyNum) ;;
           _ <- remote (CWaitForDeployment contractAddress)
                  (fun h => env_waitForDeployment env h contractAddress) ;;
           _ <- setToken symbol contractAddress ;;
           ret ("Token " +:+ name +:+ " (" +:+ symbol +:+ ") created successfully at "
                +:+ ARBITRUM_EXPLORER_URL +:+ "/address/" +:+ contractAddress))
        (fun e => throw ("Failed to create token: " +:+ e))
  end.

(** [GetFaucetTokensTool._call] *)
Definition GetFaucetTokensTool_call (addr : string) : M string :=
  if negb (isAddress lib addr) then ret "Invalid Ethereum address provided."
  else ret ("To get testnet ETH for " +:+ addr +:+ ", visit " +:+ ARBITRUM_FAUCET_URL
            +:+ ", paste your address (" +:+ addr
            +:+ "), and follow the instructions to claim tokens.").

(** [HelpTool._call] *)
Definition HelpTool_call : M string :=
  ret ("Available commands:" +:+ nl +:+ join nl
    [ "setWallet <privateKey> - Set your wallet";
      "disconnectWallet - Disconnect and clear your wallet";
      "getWalletAddress - Get your wallet address";
      "getBalance - Check your ETH and token balances";
      "transferTokens <to> <amount> - Transfer ETH tokens";
      "signMessage <message> - Sign a message";
      "getTransactionHistory [count] - Get recent transactions (default 5)";
      "getGasPrice - Get current gas price";
      "getTokenPrice <token> - Get token price (e.g., ETH)";
      "getTrendingTokens - Get trending tokens (mocked for Arbitrum)";
      "createToken <name> <symbol> <totalSupply> - Create a new token";
      "getFaucetTokens <address> - Request testnet ETH from Arbitrum faucet";
      "batchMixedTransfer <type1> <to1> <amount1> [tokenName1] <type2> <to2> <amount2> [tokenName2] - Transfer ETH and tokens";
      "help - Show this list" ]).

End Operations.

(** ** The batch transfer operation *)

Section Batch.
Context (lib : Lib) (env : Env).

(** [isNaN(Number(amount)) || Number(amount) <= 0] *)
Definition badAmount (amount : string) : bool :=
  isNaN (Number lib amount) || le_zero (Number lib amount).

(** One round of the parsing loop at index [i], where [parts[i]] is [p].
    [parts[i + 1]] and [parts[i + 2]] are [undefined] past the end of the
    array; [ethers.isAddress(undefined)] is false and [Number(undefined)]
    is [NaN]. *)
Definition parseItem (tm : gmap string string) (parts : list string)
    (i : nat) (p : string) : Parsed :=
  let type := toUpperCase p in
  let to := parts !! (i + 1) in
  let amount := parts !! (i + 2) in
  let checks (tokenName : option string) (extra : nat) :=
    match to with
    | None => Reject (InvalidAddress to)
    | Some to' =>
        if negb (isAddress lib to') then Reject (InvalidAddress to)
        else match amount with
             | None => Reject (InvalidAmount amount)
             | Some amount' =>
                 if badAmount amount' then Reject (InvalidAmount amount)
                 else Accept (mkTransfer type to' amount' tokenName) extra
             end
    end in
  if decide (type = "TOKEN") then
    match parts !! (i + 3) with
    | None => Reject (MissingTokenName i)
    | Some tokenName =>
        if negb (truthy (tm_get tm tokenName)) then Reject (TokenNotFound tokenName)
        else checks (Some tokenName) 1
    end
  else if decide (type ≠ "ETH") then Reject (InvalidType type)
  else checks None 0.

(** [for (let i = 0; i < parts.length; i += 3) { ... }] from index [i] on,
    with the items pushed so far. *)
Equations? parseTransfers (tm : gmap string string) (parts : list string)
    (i : nat) (transferList : list Transfer) : BatchReply + list Transfer
    by wf (length parts - i) lt :=
parseTransfers tm parts i transferList with inspect (parts !! i) := {
  | exist _ None _ => inr transferList
  | exist _ (Some p) Hp with parseItem tm parts i p := {
      | Reject reply => inl reply
      | Accept item extra =>
          parseTransfers tm parts (i + extra + 3) (transferList ++ [item]) } }.
Proof. apply lookup_lt_Some in Hp. lia. Qed.

(** [receipt && receipt.hash]: the receipt is not [null] and its hash is
    not empty. *)
Definition receiptHash (receipt : option string) : M string :=
  match receipt with
  | Some hash =>
      if decide (hash = EmptyString)
      then throw "Transaction receipt is null or invalid"
      else ret hash
  | None => throw "Transaction receipt is null or invalid"
  end.

(** [new ethers.Contract(target, ERC20_ABI, wallet)]: the target has to be a
    string. *)
Definition newContract (target : PropValue) : M string :=
  match target with
  | OwnString a => ret a
  | _ => throw (contractTargetError lib)
  end.

(** [type === "TOKEN" && tokenName]: the name of a [TOKEN] item when it is
    a non-empty string. *)
Definition tokenItemName (t : Transfer) : option string :=
  if decide (t_type t = "TOKEN") then
    match t_tokenName t with
    | Some tokenName => if decide (tokenName = EmptyString) then None else Some tokenName
    | None => None
    end
  else None.

(** One round of the execution loop: the [try] block with its [nonce++] and
    the [catch] block. It gives the new [results] and the new [nonce]. *)
Definition transferItem (w : Wallet) (index : nat) (t : Transfer)
    (nonce : Z) (results : list Entry) : M (list Entry * Z) :=
  tryCatch
    (results' <-
       (if decide (t_type t = "ETH") then
          value <- liftResult (parseEther lib (t_amount t)) ;;
          hash <- remote (CSendTransaction (BatchItem index) (mkTx (t_to t) value (Some nonce)))
                    (fun h => env_sendTransaction env h w (mkTx (t_to t) value (Some nonce))) ;;
          receipt <- remote (CWait hash) (fun h => env_wait env h hash) ;;
          receiptHash' <- receiptHash receipt ;;
          ret (results ++ [mkEntry (index + 1) "ETH" (t_to t) (t_amount t)
                             (Successful receiptHash')])
        else match tokenItemName t with
        | Some tokenName =>
          tm <- getTokenMap ;;
          contract <- newContract (tm_get tm tokenName) ;;
          amountWei <- liftResult (parseUnits0 lib (t_amount t)) ;;
          hash <- remote (CContractTransfer (BatchItem index) contract (t_to t) amountWei nonce)
                    (fun h => env_contractTransfer env h w contract (t_to t) amountWei nonce) ;;
          receipt <- remote (CWait hash) (fun h => env_wait env h hash) ;;
          receiptHash' <- receiptHash receipt ;;
          ret (results ++ [mkEntry (index + 1) tokenName (t_to t) (t_amount t)
                             (Successful receiptHash')])
        | None => ret results
        end) ;;
     ret (results', (nonce + 1)%Z))
    (fun errorMsg =>
       let label := if decide (t_type t = "ETH") then "ETH" else show_opt (t_tokenName t) in
       ret (results ++ [mkEntry (index + 1) label (t_to t) (t_amount t) (Failed errorMsg)],
            nonce)).

(** [for (const [index, item] of transferList.entries()) { ... }] *)
Fixpoint executeTransfers (w : Wallet) (transferList : list Transfer)
    (index : nat) (nonce : Z) (results : list Entry) : M (list Entry) :=
  match transferList with
  | [] => ret results
  | t :: rest =>
      step <- transferItem w index t nonce results ;;
      executeTransfers w rest (S index) (snd step) (fst step)
  end.

(** [BatchMixedTransferTool._call], up to the printing of the reply. *)
Definition BatchMixedTransferTool_reply (transfers : string) : M BatchReply :=
  current <- getWallet ;;
  match current with
  | None => ret NoWallet
  | Some w =>
      let parts := split " " (trim transfers) in
      if decide (length parts < 3) then ret InvalidFormat
      else
        tm <- getTokenMap ;;
        match parseTransfers tm parts 0 [] with
        | inl reply => ret reply
        | inr transferList =>
            nonce <- remote (CGetNonce (address w))
                       (fun h => env_getNonce env h (address w)) ;;
            results <- executeTransfers w transferList 0 nonce [] ;;
            ret (Summary results)
        end
  end.

(** The text of one element of [results]. *)
Definition renderEntry (e : Entry) : string :=
  pretty (e_number e) +:+ ". **" +:+ e_label e +:+ " Transfer to " +:+ e_to e +:+ "**:"
  +:+ nl +:+ "   - Amount: " +:+ e_amount e +:+ " " +:+ e_label e
  +:+ nl +:+
  match e_status e with
  | Successful hash =>
      "   - Status: Successful" +:+ nl
      +:+ "   - Transaction Link: [View Transaction](" +:+ ARBITRUM_EXPLORER_URL
      +:+ "/tx/" +:+ hash +:+ ")"
  | Failed errorMsg =>
      "   - Status: Failed" +:+ nl +:+ "   - Error: " +:+ errorMsg
  end.

(** The text returned for each reply. *)
Definition renderReply (r : BatchReply) : string :=
  match r with
  | NoWallet => "No wallet set. Please set a wallet with 'setWallet <privateKey>' first."
  | InvalidFormat =>
      "Invalid format. Use: batchMixedTransfer <type1> <to1> <amount1> [tokenName1] <type2> <to2> <amount2> [tokenName2] ..."
  | MissingTokenName i =>
      "Missing token name for TOKEN transfer at position " +:+ showPosition lib i
  | TokenNotFound tokenName =>
      "Token " +:+ tokenName +:+ " not found. Please create it first using createToken."
  | InvalidType type => "Invalid type: " +:+ type +:+ ". Use 'ETH' or 'TOKEN'"
  | InvalidAddress to => "Invalid address: " +:+ show_opt to
  | InvalidAmount amount => "Invalid amount: " +:+ show_opt amount
  | Summary results =>
      "The batch mixed transfer completed with " +:+ pretty (length results)
      +:+ " operations:" +:+ nl +:+ nl
      +:+ join (nl +:+ nl) (map renderEntry results)
  end.

(** [BatchMixedTransferTool._call] *)
Definition BatchMixedTransferTool_call (transfers : string) : M string :=
  reply <- BatchMixedTransferTool_reply transfers ;;
  ret (renderReply reply).

End Batch.

(** ** The catalog of operations and the agent/tools workflow *)

(** A request of the resolver for one operation of the [tools] array, with
    its arguments. *)
Inductive ToolCall :=
| call_setWallet (key : string)
| call_disconnectWallet
| call_getWalletAddress
| call_getBalance
| call_transferTokens (to amount : string)
| call_signMessage (message : string)
| call_getTransactionHistory (count : Z)
| call_getGasPrice
| call_getTokenPrice (token : string)
| call_getTrendingTokens
| call_createToken (name symbol totalSupply : string)
| call_getFaucetTokens (addr : string)
| call_batchMixedTransfer (transfers : string)
| call_help.

Inductive Message :=
| SystemMessage (content : string)
| HumanMessage (content : string)
| AIMessage (content : string) (tool_calls : list ToolCall)
| ToolMessage (content : string).

(** [interface AgentState { messages: BaseMessage[] }] *)
Record AgentState := mkState { messages : list Message }.

(** Where the conditional edge leaving ["agent"] leads. *)
Inductive Route :=
| tools
| END.

Inductive Node :=
| agentNode
| toolsNode.

(** [shouldContinue]; the [in] operator throws on [undefined], the last
    element of an empty array. *)
Definition shouldContinue (state : AgentState) : Result Route :=
  match last (messages state) with
  | None => Err "Cannot use 'in' operator to search for 'tool_calls' in undefined"
  | Some (AIMessage _ (_ :: _)) => Ok tools
  | Some _ => Ok END
  end.

(** The system message [callAgent] puts in front of the conversation. *)
Definition systemMessage : Message :=
  SystemMessage
    "You are an AI assistant that helps users interact with the Arbitrum Sepolia testnet. Use the provided tools to assist the user. The wallet private key persists until the user explicitly disconnects.".

(** The reducer of the [messages] channel. *)
Definition reducer (x y : list Message) : list Message := x ++ y.

Section Workflow.
Context (lib : Lib) (env : Env).

(** The operation each entry of [tools] runs. *)
Definition invokeTool (c : ToolCall) : M string :=
  match c with
  | call_setWallet key => SetWalletTool_call lib key
  | call_disconnectWallet => DisconnectWalletTool_call
  | call_getWalletAddress => GetWalletAddressTool_call
  | call_getBalance => GetBalanceTool_call lib env
  | call_transferTokens to amount => TransferTokensTool_call lib env to amount
  | call_signMessage message => SignMessageTool_call env message
  | call_getTransactionHistory count => GetTransactionHistoryTool_call lib env count
  | call_getGasPrice => GetGasPriceTool_call lib env
  | call_getTokenPrice token => GetTokenPriceTool_call env token
  | call_getTrendingTokens => GetTrendingTokensTool_call
  | call_createToken name symbol totalSupply =>
      CreateTokenTool_call lib env name symbol totalSupply
  | call_getFaucetTokens addr => GetFaucetTokensTool_call lib addr
  | call_batchMixedTransfer transfers => BatchMixedTransferTool_call lib env transfers
  | call_help => HelpTool_call
  end.

(** What the prebuilt tools node ([new ToolNode(tools)], with the error
    handling it has unless configured otherwise) does with one requested
    operation: it runs the operation and hands its text back as a tool
    message; an error the operation throws is caught there, and its message
    is handed back as a tool message too, in the wording of the library. *)
Definition toolNodeCall (c : ToolCall) : M Message :=
  tryCatch
    (output <- invokeTool c ;;
     ret (ToolMessage output))
    (fun e => ret (ToolMessage (toolErrorContent lib e))).

(** The resolver ([modelWithTools.invoke]) and the prebuilt node that runs
    the requested operations are supplied by the libraries. *)
Context (modelWithTools_invoke : list Message -> M Message).
Context (toolNode : AgentState -> M (list Message)).

(** [callAgent] *)
Definition callAgent (state : AgentState) : M (list Message) :=
  response <- modelWithTools_invoke (systemMessage :: messages state) ;;
  ret [response].

(** The graph declared by [workflow]: ["__start__"] leads to ["agent"],
    ["agent"] leads where [shouldContinue] says, ["tools"] leads back to
    ["agent"]. The graph library runs the nodes one after the other and
    gives up once its recursion limit is used up: [runGraph steps node state]
    runs at most [steps] nodes starting with [node], and gives [None] when
    the graph has not reached [END] by then. *)
Fixpoint runGraph (steps : nat) (node : Node) (state : AgentState)
    : M (option AgentState) :=
  match steps with
  | 0 => ret None
  | S steps' =>
      match node with
      | agentNode =>
          update <- callAgent state ;;
          let state' := mkState (reducer (messages state) update) in
          route <- liftResult (shouldContinue state') ;;
          match route with
          | tools => runGraph steps' toolsNode state'
          | END => ret (Some state')
          end
      | toolsNode =>
          update <- toolNode state ;;
          runGraph steps' agentNode (mkState (reducer (messages state) update))
      end
  end.

(** [agent.invoke({ messages })] under a recursion limit that lets the
    library run [recursionLimit] nodes: a run that has not reached [END]
    when the limit is used up throws the library's [GraphRecursionError]. *)
Definition invoke (recursionLimit : nat) (input : list Message) : M AgentState :=
  result <- runGraph recursionLimit agentNode (mkState (reducer [] input)) ;;
  match result with
  | Some final => ret final
  | None => throw (graphRecursionError lib)
  end.

End Workflow.

(** ** A concrete library and endpoint, for the examples *)

(** The value of a string of decimal digits. *)
Fixpoint digitsValue (acc : N) (s : string) : option N :=
  match s with
  | EmptyString => Some acc
  | String c s' =>
      match Ascii.is_nat c with
      | Some d => digitsValue (acc * 10 + N.of_nat d) s'
      | None => None
      end
  end.

Definition decimalLiteral (s : string) : option N :=
  match s with
  | EmptyString => None
  | _ => digitsValue 0 s
  end.

Fixpoint lowerHex (s : string) : bool :=
  match s with
  | EmptyString => true
  | String c s' =>
      let n := nat_of_ascii c in
      (((48 <=? n) && (n <=? 57)) || ((97 <=? n) && (n <=? 102))) && lowerHex s'
  end.

(** Addresses written as [0x] and forty lower-case hexadecimal digits. *)
Definition sampleIsAddress (s : string) : bool :=
  match s with
  | String "0" (String "x" digits) => (String.length digits =? 40) && lowerHex digits
  | _ => false
  end.

(** A library that agrees with the real one on unsigned decimal integer
    literals and on lower-case hexadecimal addresses; the texts of its
    errors are shortened, and it lists the entries of the token map in an
    order of its own. *)
Definition sampleLib : Lib := {|
  isAddress := sampleIsAddress;
  Number s :=
    match s with
    | EmptyString => Finite 0 0
    | _ => match decimalLiteral s with Some n => Finite (Z.of_N n) 0 | None => NaN end
    end;
  parseInt s :=
    match decimalLiteral s with Some n => Finite (Z.of_N n) 0 | None => NaN end;
  parseEther s :=
    match decimalLiteral s with
    | Some n => Ok (Z.of_N n * 10 ^ 18)%Z
    | None => Err "invalid FixedNumber string value"
    end;
  parseUnits0 s :=
    match decimalLiteral s with
    | Some n => Ok (Z.of_N n)
    | None => Err "invalid FixedNumber string value"
    end;
  formatEther v := pretty v;
  formatGwei v := pretty v;
  newWallet key :=
    match key with
    | EmptyString => Err "invalid private key"
    | _ => Ok (mkWallet key "0x1111111111111111111111111111111111111111")
    end;
  contractTargetError := "invalid value for Contract target";
  stringifyTxs txs := pretty (length txs);
  showPosition i := pretty (i / 3 + 1);
  objectEntries m := map_to_list m;
  toolErrorContent e := "Error: " +:+ e +:+ nl +:+ " Please fix your mistakes.";
  graphRecursionError := "Recursion limit of 25 reached without hitting a stop condition."
|}.

Definition isSubmission (c : Call) : bool :=
  match c with
  | CSendTransaction _ _ | CContractTransfer _ _ _ _ _ => true
  | _ => false
  end.

(** An endpoint whose account nonce is [base], that answers the [k]-th
    submission it receives with [submit k], and confirms every transaction
    it accepted. *)
Definition sampleEnv (base : Z) (submit : nat -> Result string) : Env := {|
  env_getNonce _ _ := Ok base;
  env_sendTransaction h _ _ := submit (length (filter isSubmission h));
  env_contractTransfer h _ _ _ _ _ := submit (length (filter isSubmission h));
  env_wait _ hash := Ok (Some hash);
  env_getBalance _ _ := Ok 0%Z;
  env_balanceOf _ _ _ := Ok 0%Z;
  env_getBlockNumber _ := Ok 100%Z;
  env_getLogs _ _ _ _ := Ok [];
  env_getFeeData _ := Ok (Some 1%Z);
  env_signMessage _ _ message := Ok message;
  env_deploy _ _ _ _ _ := Ok "0x2222222222222222222222222222222222222222";
  env_waitForDeployment _ _ := Ok tt;
  env_httpGet _ _ := Ok None
|}.

Definition sampleWallet : Wallet :=
  mkWallet "key" "0x1111111111111111111111111111111111111111".

Definition addrA : string := "0x00000000000000000000000000000000000000aa".
Definition addrB : string := "0x00000000000000000000000000000000000000bb".

(** Worlds and endpoints of the examples. *)
Definition walletWorld : World := mkWorld (Some sampleWallet) ∅ [].

Definition rejectingEnv : Env := sampleEnv 5 (λ _, Err "insufficient funds").

Definition registryWorld : World :=
  mkWorld (Some sampleWallet) (tm_set ∅ "MTK" addrA) [].

Definition acceptingEnv : Env := sampleEnv 5 (λ k, Ok ("0xhash" +:+ pretty k)).

Definition firstRejectedEnv : Env :=
  sampleEnv 5 (λ k, if decide (k = 0) then Err "insufficient funds"
                    else Ok ("0xhash" +:+ pretty k)).

(** Three batches: two native transfers; a [TOKEN] transfer whose amount is
    followed by two spaces, so that the empty token between them is read as
    the token name; a [TOKEN] transfer that names a property every plain
    object inherits. *)
Definition twoNative : string := "ETH " +:+ addrA +:+ " 1 ETH " +:+ addrB +:+ " 2".

Definition emptyNameBatch : string := "TOKEN " +:+ addrA +:+ " 10  ETH " +:+ addrB +:+ " 1".

Definition inheritedNameBatch : string := "TOKEN " +:+ addrA +:+ " 1 constructor".

(** A world where a token was created with the empty symbol. *)
Definition emptySymbolWorld : World :=
  mkWorld (Some sampleWallet) (tm_set ∅ EmptyString addrB) [].

(** A resolver that requests an operation whatever the conversation is, and
    a tools node that answers every request. *)
Definition requestingModel : list Message → M Message :=
  λ _, ret (AIMessage "Let me check." [call_help]).

Definition answeringToolNode : AgentState → M (list Message) :=
  λ _, ret [ToolMessage "Available commands"].

(** The same resolver and tools node, each leaving one record in the list
    of calls every time it runs. *)
Definition recordingModel : list Message → M Message :=
  λ _, remote (CHttpGet "resolver") (λ _, Ok (AIMessage "Let me check." [call_help])).

Definition recordingToolNode : AgentState → M (list Message) :=
  λ _, remote (CHttpGet "tools") (λ _, Ok [ToolMessage "Available commands"]).

(** ** Vocabulary of the properties *)

(** The operations that need the wallet to sign or to name the account:
    balance query, native transfer, message signing, transaction history,
    token creation and batch transfer. *)
Definition requiresSession (c : ToolCall) : bool :=
  match c with
  | call_getBalance | call_transferTokens _ _ | call_signMessage _
  | call_getTransactionHistory _ | call_createToken _ _ _
  | call_batchMixedTransfer _ => true
  | _ => false
  end.

(** The texts that report a missing wallet all start the same way. *)
Definition NoSessionText (text : string) : Prop :=
  ∃ rest, text = "No wallet set." +:+ rest.

Definition isCreateToken (c : ToolCall) : bool :=
  match c with call_createToken _ _ _ => true | _ => false end.

(** A computation that never changes the token map. *)
Definition keepsTokenMap {A} (c : M A) : Prop :=
  ∀ σ, tokenMap (snd (c σ)) = tokenMap σ.

(** A node of the workflow that leaves exactly one record in the list of
    calls every time it runs, whatever it answers. *)
Definition recordsOnce {A B} (node : A → M B) : Prop :=
  ∀ a σ, length (calls (snd (node a σ))) = S (length (calls σ)).

(** An exception leaving an operation carries the operation's prefix. *)
Definition rethrownWith (prefix : string) (r : Res string) : Prop :=
  ∀ msg, r = Exn msg → ∃ reason, msg = prefix +:+ reason.

(** The tokens of a chunk are those of the item: three for an [ETH] item,
    four for a [TOKEN] item, the kind up to letter case. *)
Definition encodes (chunk : list string) (t : Transfer) : Prop :=
  (∃ kind, chunk = [kind; t_to t; t_amount t]
           ∧ toUpperCase kind = "ETH" ∧ t_type t = "ETH" ∧ t_tokenName t = None)
  ∨ (∃ kind name, chunk = [kind; t_to t; t_amount t; name]
           ∧ toUpperCase kind = "TOKEN" ∧ t_type t = "TOKEN"
           ∧ t_tokenName t = Some name).

(** An item the execution loop has a branch for. *)
Definition executable (t : Transfer) : Prop :=
  t_type t = "ETH" ∨ ∃ name, tokenItemName t = Some name.

Definition isSuccessful (e : Entry) : bool :=
  match e_status e with Successful _ => true | Failed _ => false end.


(** The nonce carried by a submission made for the batch item [index]. *)
Definition submittedNonce (index : nat) (c : Call) : option Z :=
  match c with
  | CSendTransaction (BatchItem i) tx => if decide (i = index) then tx_nonce tx else None
  | CContractTransfer (BatchItem i) _ _ _ nonce => if decide (i = index) then Some nonce else None
  | _ => None
  end.


(** The hash the endpoint answered to the submission [c] made after the
    calls [h], when it accepted it. *)
Definition acceptedHash (env : Env) (w : Wallet) (h : list Call) (c : Call) : option string :=
  match c with
  | CSendTransaction _ tx =>
      match env_sendTransaction env h w tx with Ok hash => Some hash | Err _ => None end
  | CContractTransfer _ contract to value nonce =>
      match env_contractTransfer env h w contract to value nonce with
      | Ok hash => Some hash
      | Err _ => None
      end
  | _ => None
  end.

(** An item that passed every check of the parsing loop. *)
Definition validItem (lib : Lib) (tm : gmap string string) (t : Transfer) : Prop :=
  isAddress lib (t_to t) = true
  ∧ badAmount lib (t_amount t) = false
  ∧ ((t_type t = "ETH" ∧ t_tokenName t = None)
     ∨ (t_type t = "TOKEN"
        ∧ ∃ name, t_tokenName t = Some name ∧ truthy (tm_get tm name) = true)).

(** The entry [e] reports the item [t] at position [index]. *)
Definition reports (index : nat) (t : Transfer) (e : Entry) : Prop :=
  e_number e = index + 1 ∧ e_to e = t_to t ∧ e_amount e = t_amount t.

(** The entries report the items one by one, in order, from position
    [index] on. *)
Fixpoint reportsFrom (index : nat) (items : list Transfer) (entries : list Entry) : Prop :=
  match items, entries with
  | [], [] => True
  | t :: items', e :: entries' => reports index t e ∧ reportsFrom (S index) items' entries'
  | _, _ => False
  end.

(** The calls one batch item makes after the calls [h], when it is run with
    [nonce], and whether it succeeds: no call at all (it fails before
    submitting), a submission the endpoint rejects, or an accepted
    submission followed by the await of its receipt. *)
Inductive itemTrace (env : Env) (w : Wallet) (index : nat) (nonce : Z) (h : list Call)
  : list Call → bool → Prop :=
| trace_none : itemTrace env w index nonce h [] false
| trace_rejected c :
    submittedNonce index c = Some nonce →
    acceptedHash env w h c = None →
    itemTrace env w index nonce h [c] false
| trace_awaited c hash ok :
    submittedNonce index c = Some nonce →
    acceptedHash env w h c = Some hash →
    itemTrace env w index nonce h [c; CWait hash] ok.

(** A run of the execution loop over [items], from position [index], nonce
    [nonce] and the calls [h]: the entries it pushes and the calls of each
    item. The nonce moves on after a successful item, and after an item
    that is neither an [ETH] item nor a [TOKEN] item with a name, for which
    nothing is done and nothing is pushed. *)
Inductive batchTrace (env : Env) (w : Wallet)
  : nat → Z → list Call → list Transfer → list Entry → list (list Call) → Prop :=
| batch_done index nonce h : batchTrace env w index nonce h [] [] []
| batch_item index nonce h t items e entries seg segs ok :
    itemTrace env w index nonce h seg ok →
    isSuccessful e = ok →
    reports index t e →
    batchTrace env w (S index) (if ok then (nonce + 1)%Z else nonce) (h ++ seg)
      items entries segs →
    batchTrace env w index nonce h (t :: items) (e :: entries) (seg :: segs)
| batch_skipped index nonce h t items entries segs :
    ¬ executable t →
    batchTrace env w (S index) (nonce + 1)%Z h items entries segs →
    batchTrace env w index nonce h (t :: items) entries ([] :: segs).

(** The replies that refuse a batch before anything is executed. *)
Definition isRefusal (r : BatchReply) : bool :=
  match r with
  | InvalidFormat | MissingTokenName _ | TokenNotFound _ | InvalidType _
  | InvalidAddress _ | InvalidAmount _ => true
  | NoWallet | Summary _ => false
  end.

(** ** The request handler *)

(** What [agentHandler] sends back: [res.json({ response })], or
    [res.status(status).json({ error })]. *)
Inductive HttpReply :=
| JsonResponse (response : string)
| JsonError (status : nat) (error : string).

(** [message.content] *)
Definition content (m : Message) : string :=
  match m with
  | SystemMessage c | HumanMessage c | AIMessage c _ | ToolMessage c => c
  end.

(** The conversation [agentHandler] starts the workflow with: the request
    to set the wallet when a non-empty [privateKey] came with the request,
    then the input. *)
Definition handlerMessages (input : string) (key : option string) : list Message :=
  match key with
  | Some k =>
      if decide (k = EmptyString) then [HumanMessage input]
      else [HumanMessage ("setWallet " +:+ k); HumanMessage input]
  | None => [HumanMessage input]
  end.

(** The recursion limit of the graph library when the caller of
    [agent.invoke] configures none. *)
Definition defaultRecursionLimit : nat := 25.

(** [agentHandler], for a request body whose [input] and [privateKey] are
    strings or missing. It passes no configuration to [agent.invoke], so
    the workflow runs under the recursion limit of the library, which is
    [defaultRecursionLimit]. *)
Definition agentHandler (lib : Lib) (model : list Message → M Message)
    (toolNode : AgentState → M (list Message)) (recursionLimit : nat)
    (input key : option string) : M HttpReply :=
  match input with
  | None => ret (JsonError 400 "Input is required")
  | Some input' =>
      if decide (input' = EmptyString) then ret (JsonError 400 "Input is required")
      else
        tryCatch
          (final <- invoke lib model toolNode recursionLimit (handlerMessages input' key) ;;
           match last (messages final) with
           | Some lastMessage => ret (JsonResponse (content lastMessage))
           | None => throw "Cannot read properties of undefined (reading 'content')"
           end)
          (fun e => ret (JsonError 500 ("Internal server error: " +:+ e)))
  end.

(** ** Further vocabulary *)

(** A computation that never changes the wallet. *)
Definition keepsWallet {A} (c : M A) : Prop :=
  ∀ σ, wallet (snd (c σ)) = wallet σ.

(** The operations that set or clear the wallet. *)
Definition changesWallet (c : ToolCall) : bool :=
  match c with
  | call_setWallet _ | call_disconnectWallet => true
  | _ => false
  end.

(** The operations that have no call to a remote endpoint in their code. *)
Definition isLocal (c : ToolCall) : bool :=
  match c with
  | call_setWallet _ | call_disconnectWallet | call_getWalletAddress
  | call_getTrendingTokens | call_getFaucetTokens _ | call_help => true
  | _ => false
  end.

(** The character [c] occurs in [s]. *)
Fixpoint hasChar (c : ascii) (s : string) : bool :=
  match s with
  | EmptyString => false
  | String c' s' => bool_decide (c' = c) || hasChar c s'
  end.

(** Every character of [s] is white space. *)
Fixpoint isBlank (s : string) : bool :=
  match s with
  | EmptyString => true
  | String c s' => Ascii.is_space c && isBlank s'
  end.

(** The tokens an item is written with. *)
Definition encodeItem (t : Transfer) : list string :=
  [t_type t; t_to t; t_amount t]
  ++ match t_tokenName t with Some name => [name] | None => [] end.



(** An endpoint whose nonce read fails. *)
Definition nonceFailingEnv : Env :=
  mkEnv (λ _ _, Err "network error") (env_sendTransaction acceptingEnv)
    (env_contractTransfer acceptingEnv) (env_wait acceptingEnv)
    (env_getBalance acceptingEnv) (env_balanceOf acceptingEnv)
    (env_getBlockNumber acceptingEnv) (env_getLogs acceptingEnv)
    (env_getFeeData acceptingEnv) (env_signMessage acceptingEnv)
    (env_deploy acceptingEnv) (env_waitForDeployment acceptingEnv)
    (env_httpGet acceptingEnv).

(** A resolver that answers without requesting anything. *)
Definition answeringModel : list Message → M Message :=
  λ _, ret (AIMessage "Here is the list of commands." []).

(** A resolver that throws. *)
Definition failingModel : list Message → M Message :=
  λ _, throw "rate limit exceeded".

(** ** Reasoning about the monad *)

Lemma bind_val {A B} (c : M A) (k : A → M B) σ a σ' :
  c σ = (Val a, σ') → bind c k σ = k a σ'.
Proof. intros H. unfold bind. by rewrite H. Qed.

Lemma bind_exn {A B} (c : M A) (k : A → M B) σ e σ' :
  c σ = (Exn e, σ') → bind c k σ = (Exn e, σ').
Proof. intros H. unfold bind. by rewrite H. Qed.

Lemma keeps_ret {A} (a : A) : keepsTokenMap (ret a).
Proof. by intros σ. Qed.

Lemma keeps_throw {A} e : keepsTokenMap (@throw A e).
Proof. by intros σ. Qed.

Lemma keeps_bind {A B} (c : M A) (k : A → M B) :
  keepsTokenMap c → (∀ a, keepsTokenMap (k a)) → keepsTokenMap (bind c k).
Proof.
  intros Hc Hk σ. unfold bind. specialize (Hc σ).
  destruct (c σ) as [[a|e] σ']; simpl in *; [|done].
  by rewrite Hk.
Qed.

Lemma keeps_tryCatch {A} (body : M A) (handler : string → M A) :
  keepsTokenMap body → (∀ e, keepsTokenMap (handler e)) →
  keepsTokenMap (tryCatch body handler).
Proof.
  intros Hb Hh σ. unfold tryCatch. specialize (Hb σ).
  destruct (body σ) as [[a|e] σ']; simpl in *; [done|].
  by rewrite Hh.
Qed.

Lemma keeps_liftResult {A} (r : Result A) : keepsTokenMap (liftResult r).
Proof. by destruct r. Qed.

Lemma keeps_remote {A} c (answer : list Call → Result A) :
  keepsTokenMap (remote c answer).
Proof. intros σ. unfold remote. by destruct (answer _). Qed.

Lemma keeps_getWallet : keepsTokenMap getWallet.
Proof. by intros σ. Qed.

Lemma keeps_setWallet w : keepsTokenMap (setWallet w).
Proof. by intros σ. Qed.

Lemma keeps_clearWallet : keepsTokenMap clearWallet.
Proof. by intros σ. Qed.

Lemma keeps_getTokenMap : keepsTokenMap getTokenMap.
Proof. by intros σ. Qed.

Lemma keeps_if {A} (b : bool) (c1 c2 : M A) :
  keepsTokenMap c1 → keepsTokenMap c2 → keepsTokenMap (if b then c1 else c2).
Proof. by destruct b. Qed.

Lemma keeps_decide {A} P `{Decision P} (c1 c2 : M A) :
  keepsTokenMap c1 → keepsTokenMap c2 →
  keepsTokenMap (if decide P then c1 else c2).
Proof. by destruct (decide P). Qed.

Create HintDb keeps discriminated.
#[local] Hint Resolve keeps_ret keeps_throw keeps_liftResult keeps_remote
  keeps_getWallet keeps_setWallet keeps_clearWallet keeps_getTokenMap : keeps.

Ltac keeps_step :=
  first
    [ apply keeps_bind; [|intros ?]
    | apply keeps_tryCatch; [|intros ?]
    | apply keeps_if
    | apply keeps_decide
    | match goal with
      | |- keepsTokenMap (match ?x with _ => _ end) => destruct x
      end
    | solve [auto with keeps] ].

Ltac keeps_tac := repeat keeps_step.

Lemma keeps_tokenBalances env w entries balances :
  keepsTokenMap (tokenBalances env w entries balances).
Proof.
  revert balances. induction entries as [|[tokenName tokenAddress] rest IH];
    intros balances; simpl; keeps_tac.
Qed.

Lemma keeps_receiptHash receipt : keepsTokenMap (receiptHash receipt).
Proof. unfold receiptHash. keeps_tac. Qed.

Lemma keeps_newContract lib target : keepsTokenMap (newContract lib target).
Proof. unfold newContract. keeps_tac. Qed.

#[local] Hint Resolve keeps_tokenBalances keeps_receiptHash keeps_newContract : keeps.

Lemma keeps_transferItem lib env w index t nonce results :
  keepsTokenMap (transferItem lib env w index t nonce results).
Proof. unfold transferItem. keeps_tac. Qed.

Lemma keeps_executeTransfers lib env w transferList index nonce results :
  keepsTokenMap (executeTransfers lib env w transferList index nonce results).
Proof.
  revert index nonce results.
  induction transferList as [|t rest IH]; intros index nonce results; simpl.
  - keeps_tac.
  - apply keeps_bind; [apply keeps_transferItem|]. intros step. apply IH.
Qed.

#[local] Hint Resolve keeps_executeTransfers : keeps.

Lemma keeps_batch lib env transfers :
  keepsTokenMap (BatchMixedTransferTool_call lib env transfers).
Proof.
  unfold BatchMixedTransferTool_call, BatchMixedTransferTool_reply. keeps_tac.
Qed.

Lemma keeps_other_tools lib env c :
  isCreateToken c = false → keepsTokenMap (invokeTool lib env c).
Proof.
  destruct c; intros Hc; try discriminate; simpl;
    try apply keeps_batch;
    unfold SetWalletTool_call, DisconnectWalletTool_call, GetWalletAddressTool_call,
      GetBalanceTool_call, TransferTokensTool_call, SignMessageTool_call,
      GetTransactionHistoryTool_call, GetGasPriceTool_call, GetTokenPriceTool_call,
      GetTrendingTokensTool_call, GetFaucetTokensTool_call, HelpTool_call;
    keeps_tac.
Qed.

Ltac unfold_monad :=
  unfold bind, tryCatch, ret, throw, remote, liftResult, getWallet, setWallet,
    clearWallet, getTokenMap, setToken in *.

(** ** Session store *)

(** C9. Idempotent session clear: from any state, disconnecting twice gives
    the same reply and the same state as disconnecting once, both calls
    return normally, and afterwards no wallet is set, so that [getWallet]
    gives nothing. The same holds for [clearWallet] itself. *)
Theorem clear_credential_idempotent (σ : World) :
  let once := DisconnectWalletTool_call σ in
  let twice := DisconnectWalletTool_call (snd once) in
  clearWallet (snd (clearWallet σ)) = clearWallet σ
  ∧ twice = once
  ∧ fst once = Val "Wallet disconnected successfully"
  ∧ fst twice = Val "Wallet disconnected successfully"
  ∧ wallet (snd twice) = None
  ∧ fst (getWallet (snd twice)) = Val None
  ∧ fst (GetWalletAddressTool_call (snd twice))
    = Val "No wallet set. Please provide a private key.".
Proof. by repeat split. Qed.

(** C5. Session gating: when no wallet is set, each of the operations that
    need one (balance query, native transfer, message signing, transaction
    history, token creation, batch transfer) returns a text that reports the
    missing wallet and leaves the world as it was: no call is made. *)
Theorem session_gating lib env (c : ToolCall) (σ : World) :
  wallet σ = None →
  requiresSession c = true →
  ∃ text, invokeTool lib env c σ = (Val text, σ) ∧ NoSessionText text.
Proof.
  intros Hw Hc. destruct c; try discriminate; simpl;
    unfold GetBalanceTool_call, TransferTokensTool_call, SignMessageTool_call,
      GetTransactionHistoryTool_call, CreateTokenTool_call,
      BatchMixedTransferTool_call, BatchMixedTransferTool_reply;
    unfold_monad; rewrite Hw; simpl; eexists; (split; [reflexivity|]).
  - by exists EmptyString.
  - by exists EmptyString.
  - by exists EmptyString.
  - by exists EmptyString.
  - by exists " Please set a wallet first.".
  - by exists " Please set a wallet with 'setWallet <privateKey>' first.".
Qed.

Lemma session_gating_witness :
  ∃ text,
    invokeTool sampleLib (sampleEnv 5 (λ _, Ok "0xhash"))
      (call_batchMixedTransfer ("ETH " +:+ addrA +:+ " 1")) (mkWorld None ∅ [])
    = (Val text, mkWorld None ∅ []) ∧ NoSessionText text.
Proof. apply session_gating; reflexivity. Defined.

(** ** Named asset registry *)

Lemma tm_set_own m k v k' : tm_own m k' → tm_own (tm_set m k v) k'.
Proof.
  intros [Hk' [x Hx]]. split; [done|]. unfold tm_set.
  destruct (decide (k = "__proto__")); [by eexists|].
  destruct (decide (k = k')) as [->|Hne].
  - rewrite lookup_insert_eq. by eexists.
  - rewrite lookup_insert_ne; [by eexists|done].
Qed.

Lemma tm_get_set_own m k v : k ≠ "__proto__" → tm_get (tm_set m k v) k = OwnString v.
Proof.
  intros Hk. unfold tm_get, tm_set. rewrite !decide_False by done.
  by rewrite lookup_insert_eq.
Qed.

Lemma createToken_tokenMap lib env name symbol totalSupply σ :
  let out := CreateTokenTool_call lib env name symbol totalSupply σ in
  tokenMap (snd out) = tokenMap σ
  ∨ ∃ addr text, fst out = Val text ∧ tokenMap (snd out) = tm_set (tokenMap σ) symbol addr.
Proof.
  unfold CreateTokenTool_call. unfold_monad. simpl.
  destruct (wallet σ) as [w|]; [|by left].
  destruct (isNaN _ || le_zero _); [by left|].
  destruct (env_deploy _ _ _ _ _ _) as [addr|e]; simpl; [|by left].
  destruct (env_waitForDeployment _ _ _) as [[]|e]; simpl; [|by left].
  right. by eexists _, _.
Qed.

(** C10. The registry is keyed by the symbol and written only by token
    creation: every other operation leaves the map as it was; token creation
    either leaves it as it was or stores the new contract address under the
    symbol (the name plays no part); no operation removes an own key; and
    when the symbol is already an own key, a creation whose deployment is
    answered and confirmed returns normally and the symbol then maps to the
    new address, whatever was stored before. *)
Theorem registry_keyed_by_symbol_last_write_wins lib env :
  (∀ c σ, isCreateToken c = false →
     tokenMap (snd (invokeTool lib env c σ)) = tokenMap σ)
  ∧ (∀ name symbol totalSupply σ,
       let out := CreateTokenTool_call lib env name symbol totalSupply σ in
       tokenMap (snd out) = tokenMap σ
       ∨ ∃ addr text, fst out = Val text
                      ∧ tokenMap (snd out) = tm_set (tokenMap σ) symbol addr)
  ∧ (∀ c σ k, tm_own (tokenMap σ) k →
       tm_own (tokenMap (snd (invokeTool lib env c σ))) k)
  ∧ (∀ name symbol totalSupply σ w addr,
       wallet σ = Some w →
       isNaN (parseInt lib totalSupply) || le_zero (parseInt lib totalSupply) = false →
       env_deploy env (calls σ) w name symbol (parseInt lib totalSupply) = Ok addr →
       env_waitForDeployment env
         (calls σ ++ [CDeploy name symbol (parseInt lib totalSupply)]) addr = Ok tt →
       tm_own (tokenMap σ) symbol →
       let out := CreateTokenTool_call lib env name symbol totalSupply σ in
       fst out = Val ("Token " +:+ name +:+ " (" +:+ symbol +:+ ") created successfully at "
                      +:+ ARBITRUM_EXPLORER_URL +:+ "/address/" +:+ addr)
       ∧ tm_get (tokenMap (snd out)) symbol = OwnString addr).
Proof.
  split; [|split; [|split]].
  - intros c σ Hc. by apply keeps_other_tools.
  - intros. apply createToken_tokenMap.
  - intros c σ k Hk. destruct (isCreateToken c) eqn:Hc.
    + destruct c; try discriminate. simpl.
      destruct (createToken_tokenMap lib env name symbol totalSupply σ)
        as [->|(addr & text & _ & ->)]; [done|].
      by apply tm_set_own.
    + by rewrite keeps_other_tools.
  - intros name symbol totalSupply σ w addr Hw Hsupply Hdeploy Hwait [Hproto _].
    unfold CreateTokenTool_call. unfold_monad. simpl.
    rewrite Hw, Hsupply, Hdeploy. simpl. rewrite Hwait. simpl.
    split; [done|]. by apply tm_get_set_own.
Qed.

Lemma registry_keyed_by_symbol_last_write_wins_witness :
  tm_get (tokenMap (snd (CreateTokenTool_call sampleLib (sampleEnv 5 (λ _, Ok "0xhash"))
                           "MyToken" "MTK" "1000" registryWorld))) "MTK"
  = OwnString "0x2222222222222222222222222222222222222222".
Proof.
  destruct (registry_keyed_by_symbol_last_write_wins sampleLib
              (sampleEnv 5 (λ _, Ok "0xhash"))) as (_ & _ & _ & H).
  apply (H "MyToken" "MTK" "1000" registryWorld sampleWallet); try reflexivity.
  split; [discriminate|]. by eexists.
Defined.

(** ** Single operations: what happens to a failure *)

Lemma transfer_rejected_submission lib env to amount σ w value reason :
  wallet σ = Some w →
  parseEther lib amount = Ok value →
  env_sendTransaction env (calls σ) w (mkTx to value None) = Err reason →
  fst (TransferTokensTool_call lib env to amount σ)
  = Exn ("Failed to transfer tokens: " +:+ reason).
Proof.
  intros Hw Hv Hs. unfold TransferTokensTool_call. unfold_monad. simpl.
  rewrite Hw, Hv. simpl. by rewrite Hs.
Qed.

(** C4, as the code has it. A failure inside the transfer, set-wallet and
    sign-message operations is caught by the operation and thrown again, as
    an error whose message is the operation's own prefix followed by the
    reason: every exception that leaves one of these operations has that
    form, and a rejected submission, a failed wait for the confirmation, a
    rejected signature request and an unusable private key each leave the
    operation as such an error. The tools node, which runs every operation,
    never throws: it hands back the text the operation returned, or the
    message of the error the operation threw, as a tool message; so the
    rejected submission reaches the conversation as a tool message that
    carries the prefixed reason, and no exception passes the tools node. *)
Theorem operation_failures_are_rethrown lib env :
  (∀ to amount σ,
     rethrownWith "Failed to transfer tokens: "
       (fst (TransferTokensTool_call lib env to amount σ)))
  ∧ (∀ key σ, rethrownWith "Failed to set wallet: " (fst (SetWalletTool_call lib key σ)))
  ∧ (∀ message σ,
       rethrownWith "Failed to sign message: " (fst (SignMessageTool_call env message σ)))
  ∧ (∀ to amount σ w value reason,
       wallet σ = Some w →
       parseEther lib amount = Ok value →
       env_sendTransaction env (calls σ) w (mkTx to value None) = Err reason →
       fst (TransferTokensTool_call lib env to amount σ)
       = Exn ("Failed to transfer tokens: " +:+ reason))
  ∧ (∀ to amount σ w value hash reason,
       wallet σ = Some w →
       parseEther lib amount = Ok value →
       env_sendTransaction env (calls σ) w (mkTx to value None) = Ok hash →
       env_wait env (calls σ ++ [CSendTransaction Single (mkTx to value None)]) hash
       = Err reason →
       fst (TransferTokensTool_call lib env to amount σ)
       = Exn ("Failed to transfer tokens: " +:+ reason))
  ∧ (∀ message σ w reason,
       wallet σ = Some w →
       env_signMessage env (calls σ) w message = Err reason →
       fst (SignMessageTool_call env message σ)
       = Exn ("Failed to sign message: " +:+ reason))
  ∧ (∀ key σ reason,
       newWallet lib key = Err reason →
       SetWalletTool_call lib key σ = (Exn ("Failed to set wallet: " +:+ reason), σ))
  ∧ (∀ c σ,
       ∃ text σ',
         toolNodeCall lib env c σ = (Val (ToolMessage text), σ')
         ∧ (invokeTool lib env c σ = (Val text, σ')
            ∨ ∃ reason, invokeTool lib env c σ = (Exn reason, σ')
                        ∧ text = toolErrorContent lib reason))
  ∧ (∀ to amount σ w value reason,
       wallet σ = Some w →
       parseEther lib amount = Ok value →
       env_sendTransaction env (calls σ) w (mkTx to value None) = Err reason →
       fst (toolNodeCall lib env (call_transferTokens to amount) σ)
       = Val (ToolMessage (toolErrorContent lib ("Failed to transfer tokens: " +:+ reason)))).
Proof.
  repeat split.
  - intros to amount σ msg. unfold TransferTokensTool_call. unfold_monad. simpl.
    destruct (wallet σ); [|done].
    destruct (parseEther lib amount); simpl; [|intros [= <-]; by eexists].
    destruct (env_sendTransaction _ _ _ _); simpl; [|intros [= <-]; by eexists].
    destruct (env_wait _ _ _); simpl; [done|intros [= <-]; by eexists].
  - intros key σ msg. unfold SetWalletTool_call. unfold_monad. simpl.
    destruct (newWallet lib key); simpl; [done|intros [= <-]; by eexists].
  - intros message σ msg. unfold SignMessageTool_call. unfold_monad. simpl.
    destruct (wallet σ); [|done].
    destruct (env_signMessage _ _ _ _); simpl; [done|intros [= <-]; by eexists].
  - intros to amount σ w value reason Hw Hv Hs.
    by apply (transfer_rejected_submission lib env to amount σ w value).
  - intros to amount σ w value hash reason Hw Hv Hs Hwait.
    unfold TransferTokensTool_call. unfold_monad. simpl.
    rewrite Hw, Hv. simpl. rewrite Hs. simpl. by rewrite Hwait.
  - intros message σ w reason Hw Hs.
    unfold SignMessageTool_call. unfold_monad. simpl. by rewrite Hw, Hs.
  - intros key σ reason Hk. unfold SetWalletTool_call. unfold_monad. simpl.
    by rewrite Hk.
  - intros c σ. unfold toolNodeCall, tryCatch, bind.
    destruct (invokeTool lib env c σ) as [[text|reason] σ'].
    + exists text, σ'. split; [done|]. by left.
    + exists (toolErrorContent lib reason), σ'. split; [done|]. right. by exists reason.
  - intros to amount σ w value reason Hw Hv Hs.
    pose proof (transfer_rejected_submission lib env to amount σ w value reason Hw Hv Hs)
      as Hcall.
    unfold toolNodeCall, tryCatch, bind. simpl.
    destruct (TransferTokensTool_call lib env to amount σ) as [r σ'].
    simpl in Hcall. by rewrite Hcall.
Qed.

Lemma operation_failures_are_rethrown_witness :
  fst (toolNodeCall sampleLib rejectingEnv (call_transferTokens addrA "1") walletWorld)
  = Val (ToolMessage
           (toolErrorContent sampleLib
              ("Failed to transfer tokens: " +:+ "insufficient funds"))).
Proof.
  destruct (operation_failures_are_rethrown sampleLib rejectingEnv)
    as (_ & _ & _ & _ & _ & _ & _ & _ & H).
  by apply (H addrA "1" walletWorld sampleWallet (10 ^ 18)%Z).
Defined.

(** C4, as stated, fails: with a wallet set and an endpoint that rejects the
    submission, the transfer operation does not return a failure text; the
    exception leaves the operation. *)
Lemma transfer_failure_is_not_returned :
  fst (TransferTokensTool_call sampleLib rejectingEnv addrA "1" walletWorld)
  = Exn "Failed to transfer tokens: insufficient funds"
  ∧ ∀ text, fst (TransferTokensTool_call sampleLib rejectingEnv addrA "1" walletWorld)
            ≠ Val text.
Proof. split; [reflexivity|]. intros text. discriminate. Qed.

(** ** Parsing and validation of a batch *)

Lemma parseItem_accept lib tm parts i p item extra :
  parseItem lib tm parts i p = Accept item extra →
  ∃ to amount,
    parts !! (i + 1) = Some to ∧ parts !! (i + 2) = Some amount
    ∧ t_to item = to ∧ t_amount item = amount ∧ t_type item = toUpperCase p
    ∧ isAddress lib to = true ∧ badAmount lib amount = false
    ∧ ((extra = 0 ∧ toUpperCase p = "ETH" ∧ t_tokenName item = None)
       ∨ (extra = 1 ∧ toUpperCase p = "TOKEN"
          ∧ ∃ name, parts !! (i + 3) = Some name ∧ t_tokenName item = Some name
                    ∧ truthy (tm_get tm name) = true)).
Proof.
  unfold parseItem. intros H.
  destruct (decide (toUpperCase p = "TOKEN")) as [Htoken|Htoken].
  - destruct (parts !! (i + 3)) as [name|] eqn:Hname; [|done].
    destruct (truthy (tm_get tm name)) eqn:Htruthy; [|done]. simpl in H.
    destruct (parts !! (i + 1)) as [to|]; [|done].
    destruct (isAddress lib to) eqn:Hto; [|done]. simpl in H.
    destruct (parts !! (i + 2)) as [amount|]; [|done].
    destruct (badAmount lib amount) eqn:Hamount; [done|].
    injection H as <- <-. exists to, amount. repeat split; try done.
    right. repeat split; try done. by exists name.
  - destruct (decide (toUpperCase p ≠ "ETH")) as [Heth|Heth]; [done|].
    apply dec_stable in Heth.
    destruct (parts !! (i + 1)) as [to|]; [|done].
    destruct (isAddress lib to) eqn:Hto; [|done]. simpl in H.
    destruct (parts !! (i + 2)) as [amount|]; [|done].
    destruct (badAmount lib amount) eqn:Hamount; [done|].
    injection H as <- <-. exists to, amount. repeat split; try done.
    by left.
Qed.

Lemma parseItem_reject lib tm parts i p reply :
  parseItem lib tm parts i p = Reject reply → isRefusal reply = true.
Proof.
  unfold parseItem. intros H.
  repeat match type of H with
         | context [match ?x with _ => _ end] => destruct x; simpl in H
         end;
    try discriminate; by injection H as <-.
Qed.

Lemma parseTransfers_refusal lib tm parts i transferList reply :
  parseTransfers lib tm parts i transferList = inl reply → isRefusal reply = true.
Proof.
  funelim (parseTransfers lib tm parts i transferList); intros Hreply.
  - discriminate.
  - injection Hreply as <-. by eapply parseItem_reject.
  - auto.
Qed.

(** What one round of the parsing loop refuses: an unknown kind, a [TOKEN]
    item at the end of the stream without a name, a name that is neither
    registered nor inherited, a recipient that is not an address, and an
    amount that is not a positive number. *)
Lemma parseItem_refuses lib tm parts i p :
  (toUpperCase p ≠ "TOKEN" → toUpperCase p ≠ "ETH" →
     parseItem lib tm parts i p = Reject (InvalidType (toUpperCase p)))
  ∧ (toUpperCase p = "TOKEN" → parts !! (i + 3) = None →
       parseItem lib tm parts i p = Reject (MissingTokenName i))
  ∧ (∀ name, toUpperCase p = "TOKEN" → parts !! (i + 3) = Some name →
       tm !! name = None → name ∉ objectPrototypeKeys →
       parseItem lib tm parts i p = Reject (TokenNotFound name))
  ∧ (∀ item extra, parseItem lib tm parts i p = Accept item extra →
       isAddress lib (t_to item) = true ∧ badAmount lib (t_amount item) = false).
Proof.
  repeat split.
  - intros Htoken Heth. unfold parseItem.
    by rewrite decide_False, decide_True.
  - intros Htoken Hname. unfold parseItem. by rewrite decide_True, Hname.
  - intros name Htoken Hname Hown Hproto. unfold parseItem.
    rewrite decide_True, Hname by done. unfold tm_get.
    rewrite decide_False.
    + by rewrite Hown, decide_False.
    + intros ->. apply Hproto. set_solver.
  - apply parseItem_accept in H as (to & amount & _ & _ & -> & _ & _ & Hto & _). done.
  - apply parseItem_accept in H as (to & amount & _ & _ & _ & -> & _ & _ & Hbad & _). done.
Qed.

Lemma parseTransfers_covers lib tm parts i transferList items :
  parseTransfers lib tm parts i transferList = inr items →
  ∃ chunks new,
    items = transferList ++ new
    ∧ concat chunks = drop i parts
    ∧ Forall2 encodes chunks new
    ∧ Forall (validItem lib tm) new.
Proof.
  revert items. funelim (parseTransfers lib tm parts i transferList);
    intros items Hitems.
  - injection Hitems as <-. exists [], []. rewrite app_nil_r.
    repeat split; try constructor.
    symmetry. apply drop_ge. apply lookup_ge_None.
    match goal with E : parts !! i = None |- _ => exact E end.
  - discriminate.
  - match goal with
    | IH : ∀ items, _ = inr items → _ |- _ =>
        destruct (IH _ Hitems) as (chunks & new & -> & Hcat & Henc & Hvalid)
    end.
    match goal with
    | E : parseItem _ _ _ _ _ = Accept _ _ |- _ =>
        destruct (parseItem_accept _ _ _ _ _ _ _ E)
          as (to & amount & Hto & Hamount & Eto & Eamount & Etype & Haddr & Hbad & Hkind)
    end.
    rewrite (drop_S _ _ _ Hp).
    replace (S i) with (i + 1) by lia. rewrite (drop_S _ _ _ Hto).
    replace (S (i + 1)) with (i + 2) by lia. rewrite (drop_S _ _ _ Hamount).
    destruct Hkind as [(-> & Hp' & Hname)|(-> & Hp' & name & Hname & Ename & Htruthy)].
    + exists ([p; to; amount] :: chunks), (item :: new).
      rewrite <- app_assoc. simpl. repeat split; try done.
      * rewrite Hcat. do 4 f_equal. lia.
      * constructor; [|done]. left. exists p. rewrite Eto, Eamount, Etype. by repeat split.
      * constructor; [|done]. repeat split; try congruence.
        left. split; congruence.
    + exists ([p; to; amount; name] :: chunks), (item :: new).
      rewrite <- app_assoc. simpl. repeat split; try done.
      * replace (S (i + 2)) with (i + 3) by lia. rewrite (drop_S _ _ _ Hname).
        rewrite Hcat. do 5 f_equal. lia.
      * constructor; [|done]. right. exists p, name.
        rewrite Eto, Eamount, Etype. by repeat split.
      * constructor; [|done]. repeat split; try congruence.
        right. split; [congruence|]. by exists name.
Qed.

(** C8, as the code has it. The input is trimmed and cut at every single
    space (so two spaces in a row give an empty token, and a tab or a line
    break does not separate tokens). When the walk over these tokens accepts
    the batch, the token stream is, in order, the concatenation of one chunk
    per item: three tokens (kind, recipient, amount) for an [ETH] item and
    four (kind, recipient, amount, name) for a [TOKEN] item, the kind being
    read without regard to letter case. *)
Theorem batch_parsing_covers_token_stream lib tm (transfers : string) items :
  parseTransfers lib tm (split " " (trim transfers)) 0 [] = inr items →
  ∃ chunks,
    concat chunks = split " " (trim transfers)
    ∧ Forall2 encodes chunks items.
Proof.
  intros H. destruct (parseTransfers_covers _ _ _ _ _ _ H)
    as (chunks & new & -> & Hcat & Henc & _).
  exists chunks. by split.
Qed.

Lemma batch_parsing_covers_token_stream_witness :
  ∃ chunks,
    concat chunks
    = split " " (trim ("ETH " +:+ addrA +:+ " 1 TOKEN " +:+ addrB +:+ " 2 MTK"))
    ∧ Forall2 encodes chunks
        [mkTransfer "ETH" addrA "1" None; mkTransfer "TOKEN" addrB "2" (Some "MTK")].
Proof.
  apply (batch_parsing_covers_token_stream sampleLib (tm_set ∅ "MTK" addrA)).
  vm_compute. reflexivity.
Defined.

(** C8, as stated, fails on the tokenizer: the program does not cut the
    input at white space. With two spaces between the kind and the
    recipient, its token stream has an empty token and the batch is refused,
    whereas the white-space tokens of the same input are a well-formed
    batch of one item. *)
Lemma tokens_are_not_white_space_words :
  let transfers := "ETH  " +:+ addrA +:+ " 1" in
  split " " (trim transfers) = ["ETH"; EmptyString; addrA; "1"]
  ∧ String.words transfers = ["ETH"; addrA; "1"]
  ∧ parseTransfers sampleLib ∅ (split " " (trim transfers)) 0 []
    = inl (InvalidAddress (Some EmptyString))
  ∧ parseTransfers sampleLib ∅ (String.words transfers) 0 []
    = inr [mkTransfer "ETH" addrA "1" None].
Proof. vm_compute. by repeat split. Qed.

(** A batch refused by the parsing loop makes no call: the reply is the
    refusal and the world is unchanged. *)
Lemma batch_refusal_makes_no_call lib env transfers σ w reply :
  wallet σ = Some w →
  parseTransfers lib (tokenMap σ) (split " " (trim transfers)) 0 [] = inl reply →
  ∃ reply', BatchMixedTransferTool_reply lib env transfers σ = (Val reply', σ)
            ∧ (reply' = InvalidFormat ∨ reply' = reply).
Proof.
  intros Hw Hparse. unfold BatchMixedTransferTool_reply. unfold_monad. simpl.
  rewrite Hw. destruct (decide (length _ < 3)); [by eexists; split; [|left]|].
  simpl. rewrite Hparse. by eexists; split; [|right].
Qed.

(** ** Execution of a batch *)

Lemma transferItem_skip lib env w index t nonce results σ :
  ¬ executable t →
  transferItem lib env w index t nonce results σ = (Val (results, (nonce + 1)%Z), σ).
Proof.
  intros Hexec. unfold transferItem. unfold_monad. simpl.
  destruct (decide (t_type t = "ETH")) as [Heth|Heth]; [destruct Hexec; by left|].
  destruct (tokenItemName t) as [name|] eqn:Hname; [|done].
  destruct Hexec. right. by exists name.
Qed.

Lemma transferItem_spec lib env w index t nonce results σ :
  executable t →
  ∃ (e : Entry) (seg : list Call) (ok : bool) (σ' : World),
    transferItem lib env w index t nonce results σ
    = (Val (results ++ [e], if ok then (nonce + 1)%Z else nonce), σ')
    ∧ wallet σ' = wallet σ ∧ tokenMap σ' = tokenMap σ
    ∧ calls σ' = calls σ ++ seg
    ∧ itemTrace env w index nonce (calls σ) seg ok
    ∧ isSuccessful e = ok
    ∧ reports index t e.
Proof.
  intros Hexec. unfold transferItem. unfold_monad. simpl.
  destruct (decide (t_type t = "ETH")) as [Heth|Heth].
  - destruct (parseEther lib (t_amount t)) as [value|err]; simpl.
    2:{ eexists _, [], false, _. split; [reflexivity|]. simpl.
        rewrite app_nil_r. repeat split; constructor. }
    destruct (env_sendTransaction env (calls σ) w _) as [hash|err] eqn:Hsend; simpl.
    2:{ eexists _, [_], false, _. split; [reflexivity|]. simpl.
        repeat split. constructor; simpl; [by rewrite decide_True|by rewrite Hsend]. }
    assert (∀ ok, itemTrace env w index nonce (calls σ)
              [CSendTransaction (BatchItem index) (mkTx (t_to t) value (Some nonce));
               CWait hash] ok) as Htrace.
    { intros ok. constructor; simpl; [by rewrite decide_True|by rewrite Hsend]. }
    destruct (env_wait env _ hash) as [receipt|err]; simpl.
    2:{ eexists _, [_; _], false, _. split; [reflexivity|]. simpl.
        rewrite <- app_assoc. by repeat split. }
    unfold receiptHash. destruct receipt as [rh|]; simpl.
    2:{ eexists _, [_; _], false, _. split; [reflexivity|]. simpl.
        rewrite <- app_assoc. by repeat split. }
    destruct (decide (rh = EmptyString)); simpl.
    { eexists _, [_; _], false, _. split; [reflexivity|]. simpl.
      rewrite <- app_assoc. by repeat split. }
    eexists _, [_; _], true, _. split; [reflexivity|]. simpl.
    rewrite <- app_assoc. by repeat split.
  - destruct Hexec as [?|[name Hname]]; [done|]. rewrite Hname. simpl.
    unfold newContract. destruct (tm_get (tokenMap σ) name) as [|contract|]; simpl.
    1,3: eexists _, [], false, _; (split; [reflexivity|]); simpl;
         rewrite app_nil_r; repeat split; constructor.
    destruct (parseUnits0 lib (t_amount t)) as [amountWei|err]; simpl.
    2:{ eexists _, [], false, _. split; [reflexivity|]. simpl.
        rewrite app_nil_r. repeat split; constructor. }
    destruct (env_contractTransfer env (calls σ) w _ _ _ _) as [hash|err] eqn:Hsend; simpl.
    2:{ eexists _, [_], false, _. split; [reflexivity|]. simpl.
        repeat split. constructor; simpl; [by rewrite decide_True|by rewrite Hsend]. }
    assert (∀ ok, itemTrace env w index nonce (calls σ)
              [CContractTransfer (BatchItem index) contract (t_to t) amountWei nonce;
               CWait hash] ok) as Htrace.
    { intros ok. constructor; simpl; [by rewrite decide_True|by rewrite Hsend]. }
    destruct (env_wait env _ hash) as [receipt|err]; simpl.
    2:{ eexists _, [_; _], false, _. split; [reflexivity|]. simpl.
        rewrite <- app_assoc. by repeat split. }
    unfold receiptHash. destruct receipt as [rh|]; simpl.
    2:{ eexists _, [_; _], false, _. split; [reflexivity|]. simpl.
        rewrite <- app_assoc. by repeat split. }
    destruct (decide (rh = EmptyString)); simpl.
    { eexists _, [_; _], false, _. split; [reflexivity|]. simpl.
      rewrite <- app_assoc. by repeat split. }
    eexists _, [_; _], true, _. split; [reflexivity|]. simpl.
    rewrite <- app_assoc. by repeat split.
Qed.

Lemma executable_dec t : executable t ∨ ¬ executable t.
Proof.
  unfold executable. destruct (decide (t_type t = "ETH")); [by left; left|].
  destruct (tokenItemName t) as [name|]; [left; right; by exists name|].
  right. intros [?|[name ?]]; done.
Qed.

(** The execution loop never throws: it gives the entries it pushed, and
    its calls are those of a [batchTrace]. *)
Lemma executeTransfers_spec lib env w items :
  ∀ index nonce results σ,
    ∃ (entries : list Entry) (segs : list (list Call)) (σ' : World),
      executeTransfers lib env w items index nonce results σ
      = (Val (results ++ entries), σ')
      ∧ wallet σ' = wallet σ ∧ tokenMap σ' = tokenMap σ
      ∧ calls σ' = calls σ ++ concat segs
      ∧ batchTrace env w index nonce (calls σ) items entries segs.
Proof.
  induction items as [|t items IH]; intros index nonce results σ.
  - exists (@nil Entry), (@nil (list Call)), σ. simpl. rewrite !app_nil_r.
    repeat split. constructor.
  - simpl. destruct (executable_dec t) as [Ht|Ht].
    + destruct (transferItem_spec lib env w index t nonce results σ Ht)
        as (e & seg & ok & σ1 & Hrun & Hw1 & Htm1 & Hcalls1 & Htrace & Hok & Hrep).
      rewrite (bind_val _ _ _ _ _ Hrun). simpl.
      destruct (IH (S index) (if ok then (nonce + 1)%Z else nonce) (results ++ [e]) σ1)
        as (entries & segs & σ' & Hrest & Hw' & Htm' & Hcalls' & Hbatch).
      exists (e :: entries), (seg :: segs), σ'. rewrite Hrest.
      rewrite <- app_assoc. simpl. repeat split; try congruence.
      * rewrite Hcalls', Hcalls1. by rewrite <- app_assoc.
      * econstructor; eauto. by rewrite <- Hcalls1.
    + rewrite (bind_val _ _ _ _ _ (transferItem_skip lib env w index t nonce results σ Ht)).
      simpl.
      destruct (IH (S index) (nonce + 1)%Z results σ)
        as (entries & segs & σ' & Hrest & Hw' & Htm' & Hcalls' & Hbatch).
      exists entries, ([] :: segs), σ'. rewrite Hrest. simpl.
      repeat split; try done. by constructor.
Qed.

Lemma batchTrace_reports env w index nonce h items entries segs :
  Forall executable items →
  batchTrace env w index nonce h items entries segs →
  reportsFrom index items entries.
Proof.
  intros Hexec Hbatch. induction Hbatch; simpl; [done|..].
  - apply Forall_cons in Hexec as [_ Hexec]. auto.
  - apply Forall_cons in Hexec as [Hexec _]. done.
Qed.

Lemma reportsFrom_length index items entries :
  reportsFrom index items entries → length entries = length items.
Proof.
  revert index entries. induction items as [|t items IH]; intros index [|e entries];
    simpl; try done.
  intros [_ H]. f_equal. eauto.
Qed.









Lemma batchTrace_sequential env w index nonce h items entries segs :
  batchTrace env w index nonce h items entries segs →
  ∀ p c hash,
    length h ≤ p →
    (h ++ concat segs) !! p = Some c →
    acceptedHash env w (take p (h ++ concat segs)) c = Some hash →
    (h ++ concat segs) !! S p = Some (CWait hash).
Proof.
  induction 1
    as [|index nonce h t items e entries seg segs ok Htrace Hok Hrep Hbatch IH
        |index nonce h t items entries segs Hskip Hbatch IH];
    intros p c hash Hp Hc Hacc; simpl in *.
  - rewrite app_nil_r in Hc. apply lookup_lt_Some in Hc. lia.
  - rewrite app_assoc in Hc, Hacc |- *.
    destruct (decide (length (h ++ seg) ≤ p)) as [Hge|Hlt]; [by apply (IH p c hash)|].
    rewrite length_app in Hlt.
    inversion Htrace as [|c0 Hn0 Hacc0|c0 hash0 ok0 Hn0 Hacc0]; subst; simpl in *.
    + lia.
    + assert (p = length h) as -> by lia.
      rewrite <- app_assoc in Hc, Hacc. simpl in Hc, Hacc.
      rewrite list_lookup_middle in Hc by done. injection Hc as <-.
      rewrite take_app_length in Hacc. congruence.
    + rewrite <- app_assoc in Hc, Hacc |- *. simpl in Hc, Hacc |- *.
      destruct (decide (p = length h)) as [->|Hne].
      * rewrite list_lookup_middle in Hc by done. injection Hc as <-.
        rewrite take_app_length in Hacc.
        assert (hash = hash0) as -> by congruence.
        rewrite lookup_app_r by lia.
        by replace (S (length h) - length h) with 1 by lia.
      * assert (p = S (length h)) as -> by lia.
        rewrite lookup_app_r in Hc by lia.
        replace (S (length h) - length h) with 1 in Hc by lia.
        injection Hc as <-. done.
  - by apply (IH p c hash).
Qed.

Lemma validItem_executable lib tm t :
  truthy (tm_get tm EmptyString) = false → validItem lib tm t → executable t.
Proof.
  intros Hempty (_ & _ & [[Heth _]|[Htoken (name & Hname & Htruthy)]]); [by left|].
  right. exists name. unfold tokenItemName. rewrite decide_True by done.
  rewrite Hname. destruct (decide (name = EmptyString)) as [->|]; [congruence|done].
Qed.

(** A batch that is run: the items accepted by the parsing loop, the nonce
    read before the first of them, and the trace of the execution loop. *)
Lemma batch_run_trace lib env transfers σ w results σ' :
  wallet σ = Some w →
  BatchMixedTransferTool_reply lib env transfers σ = (Val (Summary results), σ') →
  ∃ items base segs,
    parseTransfers lib (tokenMap σ) (split " " (trim transfers)) 0 [] = inr items
    ∧ Forall (validItem lib (tokenMap σ)) items
    ∧ env_getNonce env (calls σ) (address w) = Ok base
    ∧ calls σ' = (calls σ ++ [CGetNonce (address w)]) ++ concat segs
    ∧ batchTrace env w 0 base (calls σ ++ [CGetNonce (address w)]) items results segs.
Proof.
  intros Hw. unfold BatchMixedTransferTool_reply.
  rewrite (bind_val _ _ σ (Some w) σ) by (unfold getWallet; by rewrite Hw).
  destruct (decide (length _ < 3)); [done|].
  rewrite (bind_val _ _ σ (tokenMap σ) σ) by done.
  destruct (parseTransfers _ _ _ _ _) as [reply|items] eqn:Hparse.
  { apply parseTransfers_refusal in Hparse. intros [= -> _]. done. }
  destruct (parseTransfers_covers _ _ _ _ _ _ Hparse) as (_ & new & Hnew & _ & _ & Hvalid).
  simpl in Hnew. subst new.
  unfold bind at 1. unfold remote at 1.
  destruct (env_getNonce env (calls σ) (address w)) as [base|err] eqn:Hnonce; [|done].
  destruct (executeTransfers_spec lib env w items 0 base []
              (mkWorld (wallet σ) (tokenMap σ) (calls σ ++ [CGetNonce (address w)])))
    as (entries & segs & σ1 & Hrun & _ & _ & Hcalls & Hbatch).
  rewrite (bind_val _ _ _ _ _ Hrun). simpl in *. intros [= <- <-].
  by exists items, base, segs.
Qed.




(** Every reply of the batch operation other than a summary leaves the
    calls as they were, up to the one nonce read. *)
Lemma batch_calls_cases lib env transfers σ w :
  wallet σ = Some w →
  let out := BatchMixedTransferTool_reply lib env transfers σ in
  calls (snd out) = calls σ
  ∨ calls (snd out) = calls σ ++ [CGetNonce (address w)]
  ∨ ∃ results, out = (Val (Summary results), snd out).
Proof.
  intros Hw. cbv zeta.
  destruct (BatchMixedTransferTool_reply lib env transfers σ) as [r σ'] eqn:Hrun.
  simpl. revert Hrun. unfold BatchMixedTransferTool_reply.
  rewrite (bind_val _ _ σ (Some w) σ) by (unfold getWallet; by rewrite Hw).
  destruct (decide (length _ < 3)); [intros [= <- <-]; by left|].
  rewrite (bind_val _ _ σ (tokenMap σ) σ) by done.
  destruct (parseTransfers _ _ _ _ _) as [reply|items]; [intros [= <- <-]; by left|].
  unfold bind at 1. unfold remote at 1.
  destruct (env_getNonce env (calls σ) (address w)) as [base|err];
    [|intros [= <- <-]; right; by left].
  destruct (executeTransfers_spec lib env w items 0 base []
              (mkWorld (wallet σ) (tokenMap σ) (calls σ ++ [CGetNonce (address w)])))
    as (entries & segs & σ1 & Hrun & _).
  rewrite (bind_val _ _ _ _ _ Hrun). simpl. intros [= <- <-].
  right. right. by eexists.
Qed.

(** C7, as the code has it. Among the calls a batch makes, every submission
    the endpoint accepts is followed at once by the await of its receipt:
    the next item is submitted only after the receipt of the previous one
    has been awaited, or after the previous submission was rejected. *)
Theorem batch_submission_follows_previous_receipt lib env transfers σ w :
  wallet σ = Some w →
  ∀ p c hash,
    let after := calls (snd (BatchMixedTransferTool_reply lib env transfers σ)) in
    length (calls σ) ≤ p →
    after !! p = Some c →
    acceptedHash env w (take p after) c = Some hash →
    after !! S p = Some (CWait hash).
Proof.
  intros Hw p c hash after Hp Hc Hacc. subst after.
  destruct (batch_calls_cases lib env transfers σ w Hw) as [H|[H|[results H]]].
  - rewrite H in Hc. apply lookup_lt_Some in Hc. lia.
  - rewrite H in Hc, Hacc. pose proof (lookup_lt_Some _ _ _ Hc) as Hlt.
    rewrite length_app in Hlt. simpl in Hlt.
    assert (p = length (calls σ)) as -> by lia.
    rewrite list_lookup_middle in Hc by done. by injection Hc as <-.
  - destruct (batch_run_trace _ _ _ _ _ _ _ Hw H)
      as (items & base & segs & _ & _ & _ & Hcalls & Hbatch).
    rewrite Hcalls in Hc, Hacc |- *.
    destruct (decide (p = length (calls σ))) as [->|Hne].
    + rewrite <- app_assoc in Hc. simpl in Hc.
      rewrite list_lookup_middle in Hc by done. by injection Hc as <-.
    + eapply batchTrace_sequential; eauto. rewrite length_app. simpl. lia.
Qed.

Lemma batch_submission_follows_previous_receipt_witness :
  calls (snd (BatchMixedTransferTool_reply sampleLib acceptingEnv twoNative walletWorld))
    !! 2 = Some (CWait "0xhash0").
Proof.
  apply (batch_submission_follows_previous_receipt sampleLib acceptingEnv twoNative
           walletWorld sampleWallet eq_refl 1
           (CSendTransaction (BatchItem 0) (mkTx addrA (1 * 10 ^ 18) (Some 5%Z))));
    [simpl; lia|reflexivity|reflexivity].
Defined.

(** C7, as stated, fails: in a batch of two native transfers that both
    succeed, the receipt of the first is awaited (third call) before the
    second is submitted (fourth call). *)
Lemma receipt_awaited_before_next_submission :
  calls (snd (BatchMixedTransferTool_reply sampleLib acceptingEnv twoNative walletWorld))
  = [CGetNonce (address sampleWallet);
     CSendTransaction (BatchItem 0) (mkTx addrA (1 * 10 ^ 18) (Some 5%Z));
     CWait "0xhash0";
     CSendTransaction (BatchItem 1) (mkTx addrB (2 * 10 ^ 18) (Some 6%Z));
     CWait "0xhash1"].
Proof. reflexivity. Qed.

(** When no token is registered under the empty symbol, the summary of a
    batch has one entry per item, in the order of the items, each with the
    item's position, recipient and amount. *)
Lemma batch_entries_follow_items lib env transfers σ w results σ' :
  wallet σ = Some w →
  truthy (tm_get (tokenMap σ) EmptyString) = false →
  BatchMixedTransferTool_reply lib env transfers σ = (Val (Summary results), σ') →
  ∃ items,
    parseTransfers lib (tokenMap σ) (split " " (trim transfers)) 0 [] = inr items
    ∧ reportsFrom 0 items results
    ∧ length results = length items.
Proof.
  intros Hw Hempty Hrun.
  destruct (batch_run_trace _ _ _ _ _ _ _ Hw Hrun)
    as (items & base & segs & Hparse & Hvalid & _ & _ & Hbatch).
  assert (reportsFrom 0 items results) as Hrep.
  { eapply batchTrace_reports; [|exact Hbatch].
    eapply Forall_impl; [exact Hvalid|]. intros t. by apply validItem_executable. }
  exists items. repeat split; try done. by eapply reportsFrom_length.
Qed.

(** C3 at the input where the code departs from it. A token was created
    with the empty symbol; the batch has a doubled space after the first
    amount, so its first item is a [TOKEN] transfer with the empty name.
    The batch is accepted with two items, but the execution loop has no
    branch for the first one: the summary has a single entry, numbered 2. *)
Theorem empty_token_name_drops_an_entry :
  parseTransfers sampleLib (tokenMap emptySymbolWorld)
    (split " " (trim emptyNameBatch)) 0 []
  = inr [mkTransfer "TOKEN" addrA "10" (Some EmptyString);
         mkTransfer "ETH" addrB "1" None]
  ∧ BatchMixedTransferTool_reply sampleLib acceptingEnv emptyNameBatch emptySymbolWorld
    = (Val (Summary [mkEntry 2 "ETH" addrB "1" (Successful "0xhash0")]),
       mkWorld (Some sampleWallet) (tm_set ∅ EmptyString addrB)
         [CGetNonce (address sampleWallet);
          CSendTransaction (BatchItem 1) (mkTx addrB (1 * 10 ^ 18) (Some 6%Z));
          CWait "0xhash0"]).
Proof. vm_compute. by split. Qed.

(** C2 at the input where the code departs from it. No token is registered,
    and the batch names the token ["constructor"], a name every plain
    object inherits. The lookup in the token map is truthy, the batch passes
    validation, the account nonce is read, and the item fails only when the
    contract is built. *)
Theorem inherited_name_passes_validation :
  tm_get ∅ "constructor" = Inherited
  ∧ BatchMixedTransferTool_reply sampleLib acceptingEnv inheritedNameBatch walletWorld
    = (Val (Summary [mkEntry 1 "constructor" addrA "1"
                       (Failed "invalid value for Contract target")]),
       mkWorld (Some sampleWallet) ∅ [CGetNonce (address sampleWallet)]).
Proof. vm_compute. by split. Qed.

(** ** The turn loop *)

Lemma shouldContinue_after_request msgs content c cs :
  shouldContinue (mkState (reducer msgs [AIMessage content (c :: cs)])) = Ok tools.
Proof. unfold shouldContinue, reducer. simpl. by rewrite last_snoc. Qed.

Lemma runGraph_finished model toolNode fuel :
  ∀ node state σ final σ',
    runGraph model toolNode fuel node state σ = (Val (Some final), σ') →
    shouldContinue final = Ok END.
Proof.
  induction fuel as [|fuel IH]; intros node state σ final σ'; simpl; [done|].
  destruct node.
  - unfold bind at 1. destruct (callAgent model state σ) as [[update|e] σ1]; [|done].
    destruct (shouldContinue _) as [[|]|err] eqn:Hroute; simpl.
    + apply IH.
    + unfold_monad. by intros [= <- <-].
    + done.
  - unfold bind at 1. destruct (toolNode state σ) as [[update|e] σ1]; [|done].
    apply IH.
Qed.

Lemma runGraph_terminal_answer model toolNode fuel state σ response σ' :
  model (systemMessage :: messages state) σ = (Val response, σ') →
  shouldContinue (mkState (reducer (messages state) [response])) = Ok END →
  runGraph model toolNode (S fuel) agentNode state σ
  = (Val (Some (mkState (reducer (messages state) [response]))), σ').
Proof.
  intros Hmodel Hroute. simpl. unfold callAgent. unfold_monad.
  rewrite Hmodel. simpl. by rewrite Hroute.
Qed.

Lemma runGraph_requesting_is_cut model toolNode :
  (∀ msgs σ, ∃ content c cs σ', model msgs σ = (Val (AIMessage content (c :: cs)), σ')) →
  (∀ state σ, ∃ update σ', toolNode state σ = (Val update, σ')) →
  ∀ fuel node state σ, ∃ σ', runGraph model toolNode fuel node state σ = (Val None, σ').
Proof.
  intros Hmodel Htools. induction fuel as [|fuel IH]; intros node state σ; simpl.
  - by exists σ.
  - destruct node.
    + destruct (Hmodel (systemMessage :: messages state) σ) as (content & c & cs & σ1 & Hm).
      unfold callAgent. unfold bind at 1. unfold bind at 1. rewrite Hm.
      unfold ret at 1. rewrite shouldContinue_after_request. simpl.
      unfold bind at 1. unfold ret at 1. apply IH.
    + destruct (Htools state σ) as (update & σ1 & Ht).
      unfold bind at 1. rewrite Ht. apply IH.
Qed.

Lemma runGraph_mono model toolNode fuel :
  ∀ fuel' node state σ final σ',
    fuel ≤ fuel' →
    runGraph model toolNode fuel node state σ = (Val (Some final), σ') →
    runGraph model toolNode fuel' node state σ = (Val (Some final), σ').
Proof.
  induction fuel as [|fuel IH]; intros fuel' node state σ final σ' Hle; simpl; [done|].
  destruct fuel' as [|fuel']; [lia|]. simpl.
  destruct node.
  - unfold bind at 1 3. destruct (callAgent model state σ) as [[update|e] σ1]; [|done].
    destruct (shouldContinue _) as [[|]|err]; simpl; [|done|done].
    unfold bind, ret. apply IH. lia.
  - unfold bind at 1 2. destruct (toolNode state σ) as [[update|e] σ1]; [|done].
    apply IH. lia.
Qed.

Lemma runGraph_records model toolNode :
  recordsOnce model → recordsOnce toolNode →
  ∀ fuel node state σ,
    length (calls (snd (runGraph model toolNode fuel node state σ)))
    ≤ length (calls σ) + fuel.
Proof.
  intros Hmodel Htools. induction fuel as [|fuel IH]; intros node state σ; simpl; [lia|].
  destruct node.
  - unfold callAgent. unfold bind at 1. unfold bind at 1.
    specialize (Hmodel (systemMessage :: messages state) σ).
    destruct (model (systemMessage :: messages state) σ) as [[response|e] σ1];
      simpl in *; [|lia].
    unfold ret at 1. destruct (shouldContinue _) as [[|]|err]; simpl; [|lia|lia].
    unfold bind at 1. unfold ret at 1.
    specialize (IH toolsNode (mkState (reducer (messages state) [response])) σ1). lia.
  - unfold bind at 1. specialize (Htools state σ).
    destruct (toolNode state σ) as [[update|e] σ1]; simpl in *; [|lia].
    specialize (IH agentNode (mkState (reducer (messages state) update)) σ1). lia.
Qed.

Lemma invoke_finished lib model toolNode recursionLimit input σ final σ' :
  invoke lib model toolNode recursionLimit input σ = (Val final, σ')
  ↔ runGraph model toolNode recursionLimit agentNode (mkState (reducer [] input)) σ
    = (Val (Some final), σ').
Proof.
  unfold invoke, bind.
  destruct (runGraph _ _ _ _ _ _) as [[[reached|]|e] σ1]; unfold ret, throw;
    split; intros [= <- <-] || intros [=]; done.
Qed.

Lemma invoke_cut lib model toolNode recursionLimit input σ σ' :
  runGraph model toolNode recursionLimit agentNode (mkState (reducer [] input)) σ
  = (Val None, σ') →
  invoke lib model toolNode recursionLimit input σ = (Exn (graphRecursionError lib), σ').
Proof. intros Hrun. unfold invoke, bind. by rewrite Hrun. Qed.

(** C6. The turn loop ends within the recursion limit of the graph library,
    under which [agent.invoke] runs. A run that returns has reached [END]:
    its last message requests no operation; and when the resolver answers
    the input without a request, the run returns at once. With a resolver
    that requests an operation on every step and a tools node that answers,
    the run does not go on: under every recursion limit it ends by throwing
    the library's recursion error, and the request handler answers status
    500 with that error. Whatever the resolver answers, no more nodes run
    than the limit allows: when the resolver and the tools node leave one
    record each time they run, a run leaves at most as many records as the
    limit. The limit only cuts: a run that returns under one limit returns
    the same under every larger one. *)
Theorem turn_loop_ends_within_recursion_limit (lib : Lib)
    (model : list Message → M Message) (toolNode : AgentState → M (list Message))
    (recursionLimit : nat) :
  (∀ input σ final σ',
     invoke lib model toolNode recursionLimit input σ = (Val final, σ') →
     shouldContinue final = Ok END)
  ∧ (∀ input σ response σ',
       0 < recursionLimit →
       model (systemMessage :: input) σ = (Val response, σ') →
       shouldContinue (mkState (input ++ [response])) = Ok END →
       invoke lib model toolNode recursionLimit input σ
       = (Val (mkState (input ++ [response])), σ'))
  ∧ ((∀ msgs σ, ∃ content c cs σ',
        model msgs σ = (Val (AIMessage content (c :: cs)), σ')) →
     (∀ state σ, ∃ update σ', toolNode state σ = (Val update, σ')) →
     (∀ input σ,
        ∃ σ', invoke lib model toolNode recursionLimit input σ
              = (Exn (graphRecursionError lib), σ'))
     ∧ (∀ input key σ,
          input ≠ EmptyString →
          ∃ σ', agentHandler lib model toolNode recursionLimit (Some input) key σ
                = (Val (JsonError 500
                          ("Internal server error: " +:+ graphRecursionError lib)), σ')))
  ∧ (recordsOnce model → recordsOnce toolNode →
     ∀ input σ,
       length (calls (snd (invoke lib model toolNode recursionLimit input σ)))
       ≤ length (calls σ) + recursionLimit)
  ∧ (∀ largerLimit input σ final σ',
       recursionLimit ≤ largerLimit →
       invoke lib model toolNode recursionLimit input σ = (Val final, σ') →
       invoke lib model toolNode largerLimit input σ = (Val final, σ')).
Proof.
  split; [|split; [|split; [|split]]].
  - intros input σ final σ' Hrun. apply invoke_finished in Hrun.
    by apply runGraph_finished in Hrun.
  - intros input σ response σ' Hlimit Hmodel Hroute.
    destruct recursionLimit as [|limit]; [lia|].
    apply invoke_finished.
    by apply (runGraph_terminal_answer model toolNode limit (mkState (reducer [] input))).
  - intros Hmodel Htools.
    assert (∀ input σ,
              ∃ σ', invoke lib model toolNode recursionLimit input σ
                    = (Exn (graphRecursionError lib), σ')) as Hcut.
    { intros input σ.
      destruct (runGraph_requesting_is_cut model toolNode Hmodel Htools recursionLimit agentNode
                  (mkState (reducer [] input)) σ) as [σ' Hrun].
      exists σ'. by apply invoke_cut. }
    split; [done|].
    intros input key σ Hinput.
    destruct (Hcut (handlerMessages input key) σ) as [σ' Hrun].
    exists σ'. unfold agentHandler. rewrite decide_False by done.
    unfold tryCatch, bind. by rewrite Hrun.
  - intros Hmodel Htools input σ.
    pose proof (runGraph_records model toolNode Hmodel Htools recursionLimit agentNode
                  (mkState (reducer [] input)) σ) as Hbound.
    unfold invoke, bind.
    by destruct (runGraph _ _ _ _ _ _) as [[[reached|]|e] σ1].
  - intros largerLimit input σ final σ' Hle Hrun.
    apply invoke_finished. apply invoke_finished in Hrun.
    by apply (runGraph_mono model toolNode recursionLimit).
Qed.

Lemma turn_loop_ends_within_recursion_limit_witness :
  (∃ σ', agentHandler sampleLib requestingModel answeringToolNode defaultRecursionLimit
           (Some "help") None walletWorld
         = (Val (JsonError 500
                   ("Internal server error: " +:+ graphRecursionError sampleLib)), σ'))
  ∧ length (calls (snd (invoke sampleLib recordingModel recordingToolNode
                          defaultRecursionLimit [HumanMessage "help"] walletWorld)))
    ≤ length (calls walletWorld) + defaultRecursionLimit.
Proof.
  split.
  - destruct (turn_loop_ends_within_recursion_limit sampleLib requestingModel
                answeringToolNode defaultRecursionLimit) as (_ & _ & H & _).
    destruct H as [_ H].
    + intros msgs σ. by exists "Let me check.", call_help, [], σ.
    + intros state σ. by exists [ToolMessage "Available commands"], σ.
    + by apply H.
  - destruct (turn_loop_ends_within_recursion_limit sampleLib recordingModel
                recordingToolNode defaultRecursionLimit) as (_ & _ & _ & H & _).
    apply H.
    + intros msgs σ. simpl. rewrite length_app. simpl. lia.
    + intros state σ. simpl. rewrite length_app. simpl. lia.
Defined.

(** ** Further properties: the wallet *)

Lemma keepsW_ret {A} (a : A) : keepsWallet (ret a).
Proof. by intros σ. Qed.

Lemma keepsW_throw {A} e : keepsWallet (@throw A e).
Proof. by intros σ. Qed.

Lemma keepsW_bind {A B} (c : M A) (k : A → M B) :
  keepsWallet c → (∀ a, keepsWallet (k a)) → keepsWallet (bind c k).
Proof.
  intros Hc Hk σ. unfold bind. specialize (Hc σ).
  destruct (c σ) as [[a|e] σ']; simpl in *; [|done].
  by rewrite Hk.
Qed.

Lemma keepsW_tryCatch {A} (body : M A) (handler : string → M A) :
  keepsWallet body → (∀ e, keepsWallet (handler e)) →
  keepsWallet (tryCatch body handler).
Proof.
  intros Hb Hh σ. unfold tryCatch. specialize (Hb σ).
  destruct (body σ) as [[a|e] σ']; simpl in *; [done|].
  by rewrite Hh.
Qed.

Lemma keepsW_liftResult {A} (r : Result A) : keepsWallet (liftResult r).
Proof. by destruct r. Qed.

Lemma keepsW_remote {A} c (answer : list Call → Result A) :
  keepsWallet (remote c answer).
Proof. intros σ. unfold remote. by destruct (answer _). Qed.

Lemma keepsW_getWallet : keepsWallet getWallet.
Proof. by intros σ. Qed.

Lemma keepsW_getTokenMap : keepsWallet getTokenMap.
Proof. by intros σ. Qed.

Lemma keepsW_setToken k v : keepsWallet (setToken k v).
Proof. by intros σ. Qed.

Lemma keepsW_if {A} (b : bool) (c1 c2 : M A) :
  keepsWallet c1 → keepsWallet c2 → keepsWallet (if b then c1 else c2).
Proof. by destruct b. Qed.

Lemma keepsW_decide {A} P `{Decision P} (c1 c2 : M A) :
  keepsWallet c1 → keepsWallet c2 → keepsWallet (if decide P then c1 else c2).
Proof. by destruct (decide P). Qed.

Create HintDb keepsW discriminated.
#[local] Hint Resolve keepsW_ret keepsW_throw keepsW_liftResult keepsW_remote
  keepsW_getWallet keepsW_getTokenMap keepsW_setToken : keepsW.

Ltac keepsW_step :=
  first
    [ apply keepsW_bind; [|intros ?]
    | apply keepsW_tryCatch; [|intros ?]
    | apply keepsW_if
    | apply keepsW_decide
    | match goal with
      | |- keepsWallet (match ?x with _ => _ end) => destruct x
      end
    | solve [auto with keepsW] ].

Ltac keepsW_tac := repeat keepsW_step.

Lemma keepsW_tokenBalances env w entries balances :
  keepsWallet (tokenBalances env w entries balances).
Proof.
  revert balances. induction entries as [|[tokenName tokenAddress] rest IH];
    intros balances; simpl; keepsW_tac.
Qed.

Lemma keepsW_executeTransfers lib env w transferList index nonce results :
  keepsWallet (executeTransfers lib env w transferList index nonce results).
Proof.
  intros σ.
  destruct (executeTransfers_spec lib env w transferList index nonce results σ)
    as (entries & segs & σ' & -> & Hw & _). done.
Qed.

#[local] Hint Resolve keepsW_tokenBalances keepsW_executeTransfers : keepsW.

(** X2. The wallet is changed by the set-wallet and disconnect operations
    only: every other operation, whatever it returns or throws, leaves the
    wallet as it was. *)
Theorem wallet_changed_only_by_set_and_disconnect lib env (c : ToolCall) (σ : World) :
  changesWallet c = false →
  wallet (snd (invokeTool lib env c σ)) = wallet σ.
Proof.
  intros Hc. revert σ. change (keepsWallet (invokeTool lib env c)).
  destruct c; try discriminate; simpl;
    unfold GetWalletAddressTool_call, GetBalanceTool_call, TransferTokensTool_call,
      SignMessageTool_call, GetTransactionHistoryTool_call, GetGasPriceTool_call,
      GetTokenPriceTool_call, GetTrendingTokensTool_call, CreateTokenTool_call,
      GetFaucetTokensTool_call, HelpTool_call, BatchMixedTransferTool_call,
      BatchMixedTransferTool_reply;
    keepsW_tac.
Qed.

Lemma wallet_changed_only_by_set_and_disconnect_witness :
  wallet (snd (invokeTool sampleLib rejectingEnv
                 (call_transferTokens addrA "1") walletWorld))
  = wallet walletWorld.
Proof. by apply wallet_changed_only_by_set_and_disconnect. Defined.

(** X1. Setting the wallet with a usable key replaces whatever wallet was
    there, makes no remote call, and the address operation then returns the
    address of the new wallet. *)
Theorem setWallet_then_getWalletAddress lib (key : string) (w : Wallet) (σ : World) :
  newWallet lib key = Ok w →
  SetWalletTool_call lib key σ
  = (Val ("Wallet set to address: " +:+ address w),
     mkWorld (Some w) (tokenMap σ) (calls σ))
  ∧ fst (GetWalletAddressTool_call (snd (SetWalletTool_call lib key σ)))
    = Val (address w).
Proof.
  intros Hkey. unfold SetWalletTool_call, GetWalletAddressTool_call. unfold_monad.
  simpl. rewrite Hkey. simpl. by split.
Qed.

Lemma setWallet_then_getWalletAddress_witness :
  fst (GetWalletAddressTool_call (snd (SetWalletTool_call sampleLib "key" walletWorld)))
  = Val "0x1111111111111111111111111111111111111111".
Proof.
  by apply (setWallet_then_getWalletAddress sampleLib "key" sampleWallet walletWorld).
Defined.

(** X3. The set-wallet, disconnect, address, trending, faucet and help
    operations make no remote call, whatever their arguments and whatever
    they return or throw. *)
Theorem local_operations_make_no_call lib env (c : ToolCall) (σ : World) :
  isLocal c = true →
  calls (snd (invokeTool lib env c σ)) = calls σ.
Proof.
  intros Hc. destruct c; try discriminate; simpl;
    unfold SetWalletTool_call, DisconnectWalletTool_call, GetWalletAddressTool_call,
      GetTrendingTokensTool_call, GetFaucetTokensTool_call, HelpTool_call;
    unfold_monad; simpl; try done.
  - by destruct (newWallet lib key).
  - by destruct (wallet σ).
  - by destruct (isAddress lib addr).
Qed.

Lemma local_operations_make_no_call_witness :
  calls (snd (invokeTool sampleLib acceptingEnv (call_getFaucetTokens "nobody")
                walletWorld))
  = calls walletWorld.
Proof. by apply local_operations_make_no_call. Defined.

(** X4. After a disconnect, whatever the state was before, each operation
    that needs the wallet reports the missing wallet and makes no call. *)
Theorem disconnect_then_gated lib env (c : ToolCall) (σ : World) :
  requiresSession c = true →
  let σ0 := snd (DisconnectWalletTool_call σ) in
  ∃ text, invokeTool lib env c σ0 = (Val text, σ0) ∧ NoSessionText text.
Proof.
  intros Hc. destruct c; try discriminate; simpl;
    unfold GetBalanceTool_call, TransferTokensTool_call, SignMessageTool_call,
      GetTransactionHistoryTool_call, CreateTokenTool_call,
      BatchMixedTransferTool_call, BatchMixedTransferTool_reply;
    unfold_monad; simpl; eexists; (split; [reflexivity|]).
  - by exists EmptyString.
  - by exists EmptyString.
  - by exists EmptyString.
  - by exists EmptyString.
  - by exists " Please set a wallet first.".
  - by exists " Please set a wallet with 'setWallet <privateKey>' first.".
Qed.

Lemma disconnect_then_gated_witness :
  ∃ text,
    invokeTool sampleLib acceptingEnv (call_signMessage "hello")
      (snd (DisconnectWalletTool_call walletWorld))
    = (Val text, snd (DisconnectWalletTool_call walletWorld)) ∧ NoSessionText text.
Proof. by apply (disconnect_then_gated sampleLib acceptingEnv (call_signMessage "hello")). Defined.

(** ** Further properties: single operations *)

(** X5. A native transfer whose amount cannot be parsed submits nothing:
    the error leaves the operation with its prefix and the world is
    unchanged. When the submission is accepted and its confirmation
    returns, the operation makes exactly these two calls, without a nonce
    of its own, and reports the transfer with the hash of the submission,
    whatever receipt came back. *)
Theorem transfer_outcomes lib env (to amount : string) (σ : World) (w : Wallet) :
  wallet σ = Some w →
  (∀ reason,
     parseEther lib amount = Err reason →
     TransferTokensTool_call lib env to amount σ
     = (Exn ("Failed to transfer tokens: " +:+ reason), σ))
  ∧ (∀ value hash receipt,
       parseEther lib amount = Ok value →
       env_sendTransaction env (calls σ) w (mkTx to value None) = Ok hash →
       env_wait env (calls σ ++ [CSendTransaction Single (mkTx to value None)]) hash
       = Ok receipt →
       TransferTokensTool_call lib env to amount σ
       = (Val ("Transferred " +:+ amount +:+ " ETH to " +:+ to +:+ ". Tx: "
               +:+ ARBITRUM_EXPLORER_URL +:+ "/tx/" +:+ hash),
          mkWorld (wallet σ) (tokenMap σ)
            (calls σ ++ [CSendTransaction Single (mkTx to value None); CWait hash]))).
Proof.
  intros Hw. split.
  - intros reason Hparse. unfold TransferTokensTool_call. unfold_monad. simpl.
    by rewrite Hw, Hparse.
  - intros value hash receipt Hparse Hsend Hwait.
    unfold TransferTokensTool_call. unfold_monad. simpl.
    rewrite Hw, Hparse. simpl. rewrite Hsend. simpl. rewrite Hwait. simpl.
    rewrite <- app_assoc, ?Hw. reflexivity.
Qed.

Lemma transfer_outcomes_witness :
  TransferTokensTool_call sampleLib acceptingEnv addrA "one" walletWorld
  = (Exn ("Failed to transfer tokens: " +:+ "invalid FixedNumber string value"),
     walletWorld).
Proof.
  destruct (transfer_outcomes sampleLib acceptingEnv addrA "one" walletWorld
              sampleWallet eq_refl) as [H _].
  by apply H.
Defined.

(** X6. Token creation with a total supply that is not a positive number
    deploys nothing: no call is made, the token map is untouched, and the
    error leaves the operation with its prefix. *)
Theorem createToken_rejects_bad_supply lib env (name symbol totalSupply : string)
    (σ : World) (w : Wallet) :
  wallet σ = Some w →
  isNaN (parseInt lib totalSupply) || le_zero (parseInt lib totalSupply) = true →
  CreateTokenTool_call lib env name symbol totalSupply σ
  = (Exn "Failed to create token: Invalid total supply: must be a positive number", σ).
Proof.
  intros Hw Hsupply. unfold CreateTokenTool_call. unfold_monad. simpl.
  by rewrite Hw, Hsupply.
Qed.

Lemma createToken_rejects_bad_supply_witness :
  CreateTokenTool_call sampleLib acceptingEnv "MyToken" "MTK" "0" walletWorld
  = (Exn "Failed to create token: Invalid total supply: must be a positive number",
     walletWorld).
Proof. by apply (createToken_rejects_bad_supply _ _ _ _ _ _ sampleWallet). Defined.

(** X7. A token is registered only once its deployment is confirmed:
    whenever token creation throws, be it on the supply, the deployment or
    the confirmation, the token map and the wallet are as before and the
    message carries the operation's prefix. *)
Theorem createToken_failure_registers_nothing lib env
    (name symbol totalSupply : string) (σ : World) (msg : string) :
  fst (CreateTokenTool_call lib env name symbol totalSupply σ) = Exn msg →
  tokenMap (snd (CreateTokenTool_call lib env name symbol totalSupply σ)) = tokenMap σ
  ∧ wallet (snd (CreateTokenTool_call lib env name symbol totalSupply σ)) = wallet σ
  ∧ ∃ reason, msg = "Failed to create token: " +:+ reason.
Proof.
  unfold CreateTokenTool_call. unfold_monad. simpl.
  destruct (wallet σ) as [w|] eqn:Hw; [|done].
  destruct (isNaN _ || le_zero _); simpl.
  { intros [= <-]. repeat split; try done. by eexists. }
  destruct (env_deploy _ _ _ _ _ _) as [addr|e]; simpl.
  2:{ intros [= <-]. repeat split; try done. by eexists. }
  destruct (env_waitForDeployment _ _ _) as [[]|e]; simpl; [done|].
  intros [= <-]. repeat split; try done. by eexists.
Qed.

Lemma createToken_failure_registers_nothing_witness :
  tokenMap (snd (CreateTokenTool_call sampleLib acceptingEnv "MyToken" "MTK" "none"
                   registryWorld))
  = tokenMap registryWorld
  ∧ wallet (snd (CreateTokenTool_call sampleLib acceptingEnv "MyToken" "MTK" "none"
                   registryWorld))
    = wallet registryWorld
  ∧ ∃ reason,
      "Failed to create token: Invalid total supply: must be a positive number"
      = "Failed to create token: " +:+ reason.
Proof. by apply createToken_failure_registers_nothing. Defined.

Lemma parseTransfers_step lib tm parts i transferList :
  parseTransfers lib tm parts i transferList
  = match parts !! i with
    | None => inr transferList
    | Some p =>
        match parseItem lib tm parts i p with
        | Reject reply => inl reply
        | Accept item extra =>
            parseTransfers lib tm parts (i + extra + 3) (transferList ++ [item])
        end
    end.
Proof.
  funelim (parseTransfers lib tm parts i transferList);
    match goal with E : parts !! i = _ |- _ => rewrite E end;
    try match goal with E : parseItem _ _ _ _ _ = _ |- _ => rewrite E end;
    done.
Qed.

(** X8. A created token can be named in a batch: once token creation has
    returned normally with a non-empty contract address, a [TOKEN] item
    that names the symbol, with a valid recipient and amount, passes the
    validation of the batch operation. *)
Theorem created_token_passes_batch_validation lib env
    (name symbol totalSupply to amount addr : string) (σ : World) (w : Wallet) :
  wallet σ = Some w →
  isNaN (parseInt lib totalSupply) || le_zero (parseInt lib totalSupply) = false →
  env_deploy env (calls σ) w name symbol (parseInt lib totalSupply) = Ok addr →
  env_waitForDeployment env
    (calls σ ++ [CDeploy name symbol (parseInt lib totalSupply)]) addr = Ok tt →
  addr ≠ EmptyString →
  isAddress lib to = true →
  badAmount lib amount = false →
  parseTransfers lib
    (tokenMap (snd (CreateTokenTool_call lib env name symbol totalSupply σ)))
    ["TOKEN"; to; amount; symbol] 0 []
  = inr [mkTransfer "TOKEN" to amount (Some symbol)].
Proof.
  intros Hw Hsupply Hdeploy Hwait Haddr Hto Hamount.
  assert (truthy (tm_get (tokenMap (snd (CreateTokenTool_call lib env name symbol
                                            totalSupply σ))) symbol) = true) as Htruthy.
  { unfold CreateTokenTool_call. unfold_monad. simpl.
    rewrite Hw, Hsupply, Hdeploy. simpl. rewrite Hwait. simpl.
    unfold tm_get, tm_set. destruct (decide (symbol = "__proto__")); [done|].
    rewrite lookup_insert_eq. simpl. by apply bool_decide_eq_true. }
  rewrite parseTransfers_step. simpl. unfold parseItem. simpl.
  rewrite Htruthy, Hto, Hamount. simpl.
  by rewrite parseTransfers_step.
Qed.

Lemma created_token_passes_batch_validation_witness :
  parseTransfers sampleLib
    (tokenMap (snd (CreateTokenTool_call sampleLib acceptingEnv "MyToken" "MTK" "1000"
                      walletWorld)))
    ["TOKEN"; addrA; "5"; "MTK"] 0 []
  = inr [mkTransfer "TOKEN" addrA "5" (Some "MTK")].
Proof.
  by apply (created_token_passes_batch_validation sampleLib acceptingEnv "MyToken" "MTK"
              "1000" addrA "5" "0x2222222222222222222222222222222222222222"
              walletWorld sampleWallet).
Defined.




(** X10. The two reads of the history operation fail differently. A failure
    of the block-number read leaves the operation unwrapped, after that one
    call; a failure of the log query is returned as a text, and the query
    was made for the account of the wallet over the blocks from
    [max (blockNumber - 99) 0] to [blockNumber]: a window that never starts
    below block 0 and never spans more than 100 blocks. *)
Theorem history_failures_and_window lib env (count : Z) (σ : World) (w : Wallet) :
  wallet σ = Some w →
  (∀ reason,
     env_getBlockNumber env (calls σ) = Err reason →
     GetTransactionHistoryTool_call lib env count σ
     = (Exn reason, mkWorld (wallet σ) (tokenMap σ) (calls σ ++ [CGetBlockNumber])))
  ∧ (∀ current reason,
       env_getBlockNumber env (calls σ) = Ok current →
       env_getLogs env (calls σ ++ [CGetBlockNumber]) (Z.max (current - 99) 0) current
         (address w) = Err reason →
       GetTransactionHistoryTool_call lib env count σ
       = (Val ("Failed to fetch transaction history: " +:+ reason),
          mkWorld (wallet σ) (tokenMap σ)
            (calls σ ++ [CGetBlockNumber;
                         CGetLogs (Z.max (current - 99) 0) current (address w)])))
  ∧ (∀ fromBlock toBlock addr,
       CGetLogs fromBlock toBlock addr
         ∈ drop (length (calls σ))
             (calls (snd (GetTransactionHistoryTool_call lib env count σ))) →
       (0 ≤ fromBlock)%Z ∧ (toBlock - fromBlock ≤ 99)%Z ∧ addr = address w).
Proof.
  intros Hw. destruct σ as [current_wallet tm cs]. simpl in Hw. subst current_wallet.
  repeat split.
  - intros reason Hblock. unfold GetTransactionHistoryTool_call. unfold_monad.
    simpl in *. by rewrite Hblock.
  - intros current reason Hblock Hlogs.
    unfold GetTransactionHistoryTool_call. unfold_monad. simpl in *.
    rewrite Hblock. simpl. rewrite Hlogs. simpl.
    rewrite <- app_assoc. reflexivity.
  - revert H. unfold GetTransactionHistoryTool_call. unfold_monad. simpl.
    destruct (env_getBlockNumber env cs) as [current|e]; simpl.
    + destruct (env_getLogs _ _ _ _ _); simpl; rewrite <- app_assoc, drop_app_length;
        simpl; intros Hin; apply elem_of_cons in Hin as [Hin|Hin]; try done;
        apply list_elem_of_singleton in Hin; injection Hin as -> -> ->; lia.
    + rewrite drop_app_length. intros Hin. by apply list_elem_of_singleton in Hin.
  - revert H. unfold GetTransactionHistoryTool_call. unfold_monad. simpl.
    destruct (env_getBlockNumber env cs) as [current|e]; simpl.
    + destruct (env_getLogs _ _ _ _ _); simpl; rewrite <- app_assoc, drop_app_length;
        simpl; intros Hin; apply elem_of_cons in Hin as [Hin|Hin]; try done;
        apply list_elem_of_singleton in Hin; injection Hin as -> -> ->; lia.
    + rewrite drop_app_length. intros Hin. by apply list_elem_of_singleton in Hin.
  - revert H. unfold GetTransactionHistoryTool_call. unfold_monad. simpl.
    destruct (env_getBlockNumber env cs) as [current|e]; simpl.
    + destruct (env_getLogs _ _ _ _ _); simpl; rewrite <- app_assoc, drop_app_length;
        simpl; intros Hin; apply elem_of_cons in Hin as [Hin|Hin]; try done;
        apply list_elem_of_singleton in Hin; by injection Hin as -> -> ->.
    + rewrite drop_app_length. intros Hin. by apply list_elem_of_singleton in Hin.
Qed.

Lemma history_failures_and_window_witness :
  (0 ≤ 1)%Z ∧ (100 - 1 ≤ 99)%Z ∧ address sampleWallet = address sampleWallet.
Proof.
  destruct (history_failures_and_window sampleLib acceptingEnv 5 walletWorld
              sampleWallet eq_refl) as (_ & _ & H).
  apply (H 1%Z 100%Z (address sampleWallet)).
  vm_compute. apply elem_of_cons. right. apply elem_of_cons. by left.
Defined.

(** X11. The price lookup does not depend on the letter case of the ticker:
    two tickers with the same lower-case form lead to the same request and
    leave the same world. *)
Theorem token_price_ignores_case env (token1 token2 : string) (σ : World) :
  toLowerCase token1 = toLowerCase token2 →
  snd (GetTokenPriceTool_call env token1 σ) = snd (GetTokenPriceTool_call env token2 σ)
  ∧ ∃ url, calls (snd (GetTokenPriceTool_call env token1 σ)) = calls σ ++ [CHttpGet url].
Proof.
  intros Hcase. unfold GetTokenPriceTool_call. unfold_monad. simpl. rewrite Hcase.
  destruct (env_httpGet env (calls σ) _) as [[usd|]|e]; simpl; split; try done;
    by eexists.
Qed.

Lemma token_price_ignores_case_witness :
  snd (GetTokenPriceTool_call acceptingEnv "ETH" walletWorld)
  = snd (GetTokenPriceTool_call acceptingEnv "Eth" walletWorld)
  ∧ ∃ url, calls (snd (GetTokenPriceTool_call acceptingEnv "ETH" walletWorld))
           = calls walletWorld ++ [CHttpGet url].
Proof. by apply token_price_ignores_case. Defined.

(** ** Further properties: the batch operation *)

Lemma split_nonempty sep s : split sep s ≠ [].
Proof.
  destruct s as [|c s]; simpl; [done|].
  destruct (decide (c = sep)); [done|]. by destruct (split sep s).
Qed.

Lemma split_join sep s : join (String sep EmptyString) (split sep s) = s.
Proof.
  induction s as [|c s IH]; simpl; [done|].
  pose proof (split_nonempty sep s) as Hne.
  destruct (decide (c = sep)) as [->|Hc].
  - destruct (split sep s) as [|piece pieces] eqn:Hsplit; [done|].
    simpl in *. by rewrite IH.
  - destruct (split sep s) as [|piece pieces] eqn:Hsplit; [done|].
    destruct pieces as [|piece' pieces]; simpl in *; by rewrite <- IH.
Qed.

Lemma split_no_separator sep s :
  Forall (λ token, hasChar sep token = false) (split sep s).
Proof.
  induction s as [|c s IH]; simpl; [by repeat constructor|].
  destruct (decide (c = sep)) as [->|Hc]; [by constructor|].
  destruct (split sep s) as [|piece pieces].
  { constructor; [|constructor]. simpl. by rewrite bool_decide_eq_false_2. }
  apply Forall_cons in IH as [Hpiece Hpieces]. constructor; [|done].
  simpl. rewrite Hpiece. by rewrite bool_decide_eq_false_2.
Qed.

(** X12. The tokenizer of the batch operation loses nothing: the tokens of
    an input are never an empty list, no token contains a space, and
    joining them with single spaces gives back the trimmed input. *)
Theorem batch_tokens_are_lossless (transfers : string) :
  split " " (trim transfers) ≠ []
  ∧ Forall (λ token, hasChar " " token = false) (split " " (trim transfers))
  ∧ join " " (split " " (trim transfers)) = trim transfers.
Proof.
  split; [apply split_nonempty|]. split; [apply split_no_separator|].
  apply (split_join " ").
Qed.

Lemma lookup_after_prefix {A} (pre l : list A) k :
  (pre ++ l) !! (length pre + k) = l !! k.
Proof. rewrite lookup_app_r by lia. f_equal. lia. Qed.

Lemma parse_encoded_items lib tm items :
  Forall (validItem lib tm) items →
  ∀ pre transferList,
    parseTransfers lib tm (pre ++ concat (map encodeItem items)) (length pre) transferList
    = inr (transferList ++ items).
Proof.
  induction 1 as [|t items Ht _ IH]; intros pre transferList; simpl.
  - rewrite parseTransfers_step, !app_nil_r.
    by rewrite (proj2 (lookup_ge_None _ _)) by lia.
  - destruct Ht as (Hto & Hamount & Hkind). destruct t as [type to amount tokenName].
    simpl in *. rewrite parseTransfers_step.
    destruct Hkind as [[-> ->]|[-> (name & -> & Htruthy)]]; simpl.
    + replace (length pre) with (length pre + 0) at 1 by lia.
      rewrite lookup_after_prefix. simpl. unfold parseItem.
      rewrite !lookup_after_prefix. simpl. rewrite Hto, Hamount. simpl.
      specialize (IH (pre ++ ["ETH"; to; amount]) (transferList ++ [mkTransfer "ETH" to amount None])).
      rewrite length_app in IH. simpl in IH.
      rewrite <- !app_assoc in IH. simpl in IH.
      replace (length pre + 0 + 3) with (length pre + 3) by lia. exact IH.
    + replace (length pre) with (length pre + 0) at 1 by lia.
      rewrite lookup_after_prefix. simpl. unfold parseItem.
      rewrite !lookup_after_prefix. simpl. rewrite Htruthy, Hto, Hamount. simpl.
      specialize (IH (pre ++ ["TOKEN"; to; amount; name])
                    (transferList ++ [mkTransfer "TOKEN" to amount (Some name)])).
      rewrite length_app in IH. simpl in IH.
      rewrite <- !app_assoc in IH. simpl in IH.
      replace (length pre + 1 + 3) with (length pre + 4) by lia. exact IH.
Qed.

(** X13. Writing and reading a batch agree: the token stream made of the
    tokens of valid items, one item after the other, is accepted by the
    parsing loop, which gives back exactly these items in order. *)
Theorem parse_of_encoded_batch lib tm (items : list Transfer) :
  Forall (validItem lib tm) items →
  parseTransfers lib tm (concat (map encodeItem items)) 0 [] = inr items.
Proof. intros Hvalid. apply (parse_encoded_items lib tm items Hvalid [] []). Qed.

Lemma parse_of_encoded_batch_witness :
  parseTransfers sampleLib (tm_set ∅ "MTK" addrA)
    (concat (map encodeItem [mkTransfer "ETH" addrA "1" None;
                             mkTransfer "TOKEN" addrB "2" (Some "MTK")])) 0 []
  = inr [mkTransfer "ETH" addrA "1" None; mkTransfer "TOKEN" addrB "2" (Some "MTK")].
Proof.
  apply parse_of_encoded_batch. constructor; [|constructor; [|constructor]].
  - split; [reflexivity|]. split; [reflexivity|]. left. by split.
  - split; [reflexivity|]. split; [reflexivity|]. right. split; [reflexivity|].
    by exists "MTK".
Defined.

(** X14. A refused batch has touched nothing: whenever the batch operation
    returns one of its validation refusals, the world is exactly as before,
    so no nonce was read and nothing was submitted. *)
Theorem batch_refusal_changes_nothing lib env (transfers : string) (σ σ' : World)
    (w : Wallet) (reply : BatchReply) :
  wallet σ = Some w →
  BatchMixedTransferTool_reply lib env transfers σ = (Val reply, σ') →
  isRefusal reply = true →
  σ' = σ.
Proof.
  intros Hw. unfold BatchMixedTransferTool_reply.
  rewrite (bind_val _ _ σ (Some w) σ) by (unfold getWallet; by rewrite Hw).
  destruct (decide (length _ < 3)); [by intros [= <- <-]|].
  rewrite (bind_val _ _ σ (tokenMap σ) σ) by done.
  destruct (parseTransfers _ _ _ _ _) as [refusal|items]; [by intros [= <- <-]|].
  unfold bind at 1. unfold remote at 1.
  destruct (env_getNonce env (calls σ) (address w)) as [base|err]; [|done].
  destruct (executeTransfers_spec lib env w items 0 base []
              (mkWorld (wallet σ) (tokenMap σ) (calls σ ++ [CGetNonce (address w)])))
    as (entries & segs & σ1 & Hrun & _).
  rewrite (bind_val _ _ _ _ _ Hrun). simpl. by intros [= <- <-].
Qed.

Lemma batch_refusal_changes_nothing_witness :
  snd (BatchMixedTransferTool_reply sampleLib acceptingEnv
         ("TOKEN " +:+ addrA +:+ " 1 MTK") walletWorld)
  = walletWorld.
Proof.
  apply (batch_refusal_changes_nothing sampleLib acceptingEnv
           ("TOKEN " +:+ addrA +:+ " 1 MTK") walletWorld _ sampleWallet
           (TokenNotFound "MTK")); [reflexivity|vm_compute; reflexivity|reflexivity].
Defined.

(** X15. No item can make the batch operation throw: with a wallet set, the
    operation throws only when the nonce read fails, with the reason of
    that failure and after that single call. *)
Theorem batch_throws_only_on_nonce_failure lib env (transfers : string) (σ : World)
    (w : Wallet) (reason : string) :
  wallet σ = Some w →
  fst (BatchMixedTransferTool_reply lib env transfers σ) = Exn reason →
  env_getNonce env (calls σ) (address w) = Err reason
  ∧ snd (BatchMixedTransferTool_reply lib env transfers σ)
    = mkWorld (wallet σ) (tokenMap σ) (calls σ ++ [CGetNonce (address w)]).
Proof.
  intros Hw. unfold BatchMixedTransferTool_reply.
  rewrite (bind_val _ _ σ (Some w) σ) by (unfold getWallet; by rewrite Hw).
  destruct (decide (length _ < 3)); [done|].
  rewrite (bind_val _ _ σ (tokenMap σ) σ) by done.
  destruct (parseTransfers _ _ _ _ _) as [refusal|items]; [done|].
  unfold bind at 1 3. unfold remote at 1 2.
  destruct (env_getNonce env (calls σ) (address w)) as [base|err].
  - destruct (executeTransfers_spec lib env w items 0 base []
                (mkWorld (wallet σ) (tokenMap σ) (calls σ ++ [CGetNonce (address w)])))
      as (entries & segs & σ1 & Hrun & _).
    rewrite (bind_val _ _ _ _ _ Hrun). done.
  - simpl. by intros [= ->].
Qed.

Lemma batch_throws_only_on_nonce_failure_witness :
  env_getNonce nonceFailingEnv (calls walletWorld) (address sampleWallet)
  = Err "network error"
  ∧ snd (BatchMixedTransferTool_reply sampleLib nonceFailingEnv twoNative walletWorld)
    = mkWorld (wallet walletWorld) (tokenMap walletWorld)
        (calls walletWorld ++ [CGetNonce (address sampleWallet)]).
Proof.
  apply batch_throws_only_on_nonce_failure; [reflexivity|vm_compute; reflexivity].
Defined.

Lemma itemTrace_length env w index nonce h seg ok :
  itemTrace env w index nonce h seg ok → length seg ≤ 2.
Proof. inversion 1; simpl; lia. Qed.

Lemma batchTrace_bounds env w index nonce h items entries segs :
  batchTrace env w index nonce h items entries segs →
  length entries ≤ length items ∧ length (concat segs) ≤ 2 * length items.
Proof.
  induction 1 as [|index nonce h t items e entries seg segs ok Htrace _ _ _ [IH1 IH2]
                  |index nonce h t items entries segs _ _ [IH1 IH2]]; simpl.
  - lia.
  - rewrite length_app. apply itemTrace_length in Htrace. lia.
  - lia.
Qed.

(** X17. A batch is bounded by its items: when the batch operation returns
    a summary for [N] accepted items, the summary has at most [N] entries
    and the operation has made at most [1 + 2 N] calls, the nonce read and
    at most a submission and an await per item. *)
Theorem batch_calls_bounded lib env (transfers : string) (σ σ' : World) (w : Wallet)
    (results : list Entry) :
  wallet σ = Some w →
  BatchMixedTransferTool_reply lib env transfers σ = (Val (Summary results), σ') →
  ∃ items,
    parseTransfers lib (tokenMap σ) (split " " (trim transfers)) 0 [] = inr items
    ∧ length results ≤ length items
    ∧ length (calls σ') ≤ length (calls σ) + 1 + 2 * length items.
Proof.
  intros Hw Hrun.
  destruct (batch_run_trace _ _ _ _ _ _ _ Hw Hrun)
    as (items & base & segs & Hparse & _ & _ & Hcalls & Hbatch).
  apply batchTrace_bounds in Hbatch as [Hentries Hsegs].
  exists items. repeat split; try done.
  rewrite Hcalls, !length_app. simpl. lia.
Qed.

Lemma batch_calls_bounded_witness :
  ∃ items,
    parseTransfers sampleLib (tokenMap walletWorld) (split " " (trim twoNative)) 0 []
    = inr items
    ∧ length [mkEntry 1 "ETH" addrA "1" (Failed "insufficient funds");
              mkEntry 2 "ETH" addrB "2" (Successful "0xhash1")]
      ≤ length items
    ∧ length (calls (snd (BatchMixedTransferTool_reply sampleLib firstRejectedEnv
                            twoNative walletWorld)))
      ≤ length (calls walletWorld) + 1 + 2 * length items.
Proof.
  apply (batch_calls_bounded sampleLib firstRejectedEnv twoNative walletWorld _
           sampleWallet); [reflexivity|vm_compute; reflexivity].
Defined.




Lemma trimStart_blank s : isBlank s = true → trimStart s = EmptyString.
Proof.
  induction s as [|c s IH]; simpl; [done|].
  destruct (Ascii.is_space c); [|done]. exact IH.
Qed.

(** X19. An empty or blank batch is refused at once: when the input has
    nothing but white space, the batch operation returns its format text
    and the world is unchanged. *)
Theorem blank_batch_is_refused lib env (transfers : string) (σ : World) (w : Wallet) :
  wallet σ = Some w →
  isBlank transfers = true →
  BatchMixedTransferTool_reply lib env transfers σ = (Val InvalidFormat, σ).
Proof.
  intros Hw Hblank. unfold BatchMixedTransferTool_reply.
  rewrite (bind_val _ _ σ (Some w) σ) by (unfold getWallet; by rewrite Hw).
  unfold trim. rewrite (trimStart_blank _ Hblank). done.
Qed.

Lemma blank_batch_is_refused_witness :
  BatchMixedTransferTool_reply sampleLib acceptingEnv "   " walletWorld
  = (Val InvalidFormat, walletWorld).
Proof. by apply (blank_batch_is_refused _ _ _ _ sampleWallet). Defined.

(** ** Further properties: the workflow and the request handler *)

Lemma runGraph_extends model toolNode fuel :
  ∀ node state σ final σ',
    runGraph model toolNode fuel node state σ = (Val (Some final), σ') →
    ∃ more, messages final = messages state ++ more ∧ more ≠ [].
Proof.
  induction fuel as [|fuel IH]; intros node state σ final σ'; simpl; [done|].
  destruct node.
  - unfold bind at 1. unfold callAgent. unfold bind at 1.
    destruct (model (systemMessage :: messages state) σ) as [[response|e] σ1]; [|done].
    unfold ret at 1.
    destruct (shouldContinue _) as [[|]|err] eqn:Hroute; simpl; [| |done].
    + intros Hrun. apply IH in Hrun as (more & -> & _). simpl. unfold reducer.
      exists ([response] ++ more). by rewrite <- app_assoc.
    + unfold_monad. intros [= <- <-]. by exists [response].
  - unfold bind at 1. destruct (toolNode state σ) as [[update|e] σ1]; [|done].
    intros Hrun. apply IH in Hrun as (more & -> & Hmore). simpl. unfold reducer.
    exists (update ++ more). rewrite <- app_assoc. split; [done|].
    intros Happ. apply app_eq_nil in Happ as [_ ?]. done.
Qed.

(** X22. The conversation only grows: when the workflow finishes, the
    messages it started with are the beginning of the final messages,
    unchanged and in order, and at least one message was added. *)
Theorem workflow_conversation_grows (model : list Message → M Message)
    (toolNode : AgentState → M (list Message)) (lib : Lib) (recursionLimit : nat)
    (input : list Message) (σ σ' : World) (final : AgentState) :
  invoke lib model toolNode recursionLimit input σ = (Val final, σ') →
  input `prefix_of` messages final ∧ length input < length (messages final).
Proof.
  intros Hrun. apply invoke_finished in Hrun.
  apply runGraph_extends in Hrun as (more & -> & Hmore). simpl. unfold reducer. simpl.
  split; [by exists more|]. rewrite length_app. destruct more; [done|]. simpl. lia.
Qed.

Lemma workflow_conversation_grows_witness :
  [HumanMessage "help"]
    `prefix_of` [HumanMessage "help"; AIMessage "Here is the list of commands." []]
  ∧ length [HumanMessage "help"]
    < length [HumanMessage "help"; AIMessage "Here is the list of commands." []].
Proof.
  apply (workflow_conversation_grows answeringModel answeringToolNode sampleLib 1
           [HumanMessage "help"] walletWorld walletWorld
           (mkState [HumanMessage "help"; AIMessage "Here is the list of commands." []])).
  reflexivity.
Defined.

(** X23. The request handler never throws and answers by cases. A request
    without input, or with an empty one, gets status 400 and nothing is
    run. When the workflow finishes, the answer is the content of its last
    message, which is always there. When the workflow throws, the answer
    is status 500 with the reason after a fixed prefix. *)
Theorem agentHandler_replies (lib : Lib) (model : list Message → M Message)
    (toolNode : AgentState → M (list Message)) (recursionLimit : nat) :
  (∀ key σ,
     agentHandler lib model toolNode recursionLimit None key σ
     = (Val (JsonError 400 "Input is required"), σ)
     ∧ agentHandler lib model toolNode recursionLimit (Some EmptyString) key σ
       = (Val (JsonError 400 "Input is required"), σ))
  ∧ (∀ input key σ reason,
       fst (agentHandler lib model toolNode recursionLimit input key σ) ≠ Exn reason)
  ∧ (∀ input key σ final σ',
       input ≠ EmptyString →
       invoke lib model toolNode recursionLimit (handlerMessages input key) σ
       = (Val final, σ') →
       ∃ lastMessage,
         last (messages final) = Some lastMessage
         ∧ agentHandler lib model toolNode recursionLimit (Some input) key σ
           = (Val (JsonResponse (content lastMessage)), σ'))
  ∧ (∀ input key σ reason σ',
       input ≠ EmptyString →
       invoke lib model toolNode recursionLimit (handlerMessages input key) σ
       = (Exn reason, σ') →
       agentHandler lib model toolNode recursionLimit (Some input) key σ
       = (Val (JsonError 500 ("Internal server error: " +:+ reason)), σ')).
Proof.
  repeat split.
  - intros [input|] key σ reason; unfold agentHandler; simpl; [|done].
    destruct (decide (input = EmptyString)); [done|].
    unfold tryCatch, bind.
    destruct (invoke lib model toolNode recursionLimit (handlerMessages input key) σ)
      as [[final|e] σ1]; try done.
    by destruct (last (messages final)).
  - intros input key σ final σ' Hinput Hrun.
    pose proof Hrun as Hfinished. apply invoke_finished in Hfinished.
    apply runGraph_finished in Hfinished.
    destruct (last (messages final)) as [lastMessage|] eqn:Hlast.
    2:{ unfold shouldContinue in Hfinished. by rewrite Hlast in Hfinished. }
    exists lastMessage. split; [done|].
    unfold agentHandler. rewrite decide_False by done.
    unfold tryCatch, bind. rewrite Hrun. by rewrite Hlast.
  - intros input key σ reason σ' Hinput Hrun.
    unfold agentHandler. rewrite decide_False by done.
    unfold tryCatch, bind. by rewrite Hrun.
Qed.

Lemma agentHandler_replies_witness :
  agentHandler sampleLib failingModel answeringToolNode 25 (Some "help") (Some "key")
    walletWorld
  = (Val (JsonError 500 ("Internal server error: " +:+ "rate limit exceeded")),
     walletWorld).
Proof.
  destruct (agentHandler_replies sampleLib failingModel answeringToolNode 25)
    as (_ & _ & _ & H).
  by apply H.
Defined.

(** ** Further properties: refusals and failures inside a batch *)

Lemma parse_skips_valid_prefix lib tm items rest :
  Forall (validItem lib tm) items →
  ∀ pre transferList,
    parseTransfers lib tm (pre ++ concat (map encodeItem items) ++ rest)
      (length pre) transferList
    = parseTransfers lib tm (pre ++ concat (map encodeItem items) ++ rest)
        (length pre + length (concat (map encodeItem items))) (transferList ++ items).
Proof.
  induction 1 as [|t items Ht _ IH]; intros pre transferList; simpl.
  - rewrite app_nil_r. f_equal. lia.
  - destruct Ht as (Hto & Hamount & Hkind). destruct t as [type to amount tokenName].
    simpl in *. rewrite parseTransfers_step.
    destruct Hkind as [[-> ->]|[-> (name & -> & Htruthy)]]; simpl.
    + replace (length pre) with (length pre + 0) at 1 by lia.
      rewrite lookup_after_prefix. simpl. unfold parseItem.
      rewrite !lookup_after_prefix. simpl. rewrite Hto, Hamount. simpl.
      specialize (IH (pre ++ ["ETH"; to; amount])
                    (transferList ++ [mkTransfer "ETH" to amount None])).
      rewrite length_app in IH. simpl in IH.
      rewrite <- !app_assoc in IH. simpl in IH.
      replace (length pre + 0 + 3) with (length pre + 3) by lia.
      replace (length pre + S (S (S (length (concat (map encodeItem items))))))
        with (length pre + 3 + length (concat (map encodeItem items))) by lia.
      exact IH.
    + replace (length pre) with (length pre + 0) at 1 by lia.
      rewrite lookup_after_prefix. simpl. unfold parseItem.
      rewrite !lookup_after_prefix. simpl. rewrite Htruthy, Hto, Hamount. simpl.
      specialize (IH (pre ++ ["TOKEN"; to; amount; name])
                    (transferList ++ [mkTransfer "TOKEN" to amount (Some name)])).
      rewrite length_app in IH. simpl in IH.
      rewrite <- !app_assoc in IH. simpl in IH.
      replace (length pre + 1 + 3) with (length pre + 4) by lia.
      replace (length pre + S (S (S (S (length (concat (map encodeItem items)))))))
        with (length pre + 4 + length (concat (map encodeItem items))) by lia.
      exact IH.
Qed.

(** X20. The first refused item refuses the whole batch: when the token
    stream starts with the tokens of valid items and the round of the
    parsing loop at the next token refuses, the batch is refused with that
    reply, whatever tokens follow and however many valid items came
    before. *)
Theorem first_refused_item_refuses_batch lib tm (items : list Transfer)
    (p : string) (rest : list string) (reply : BatchReply) :
  Forall (validItem lib tm) items →
  parseItem lib tm (concat (map encodeItem items) ++ p :: rest)
    (length (concat (map encodeItem items))) p = Reject reply →
  parseTransfers lib tm (concat (map encodeItem items) ++ p :: rest) 0 [] = inl reply.
Proof.
  intros Hvalid Hreject.
  pose proof (parse_skips_valid_prefix lib tm items (p :: rest) Hvalid [] []) as Hskip.
  simpl in Hskip. rewrite Hskip. rewrite parseTransfers_step.
  replace (length (concat (map encodeItem items)))
    with (length (concat (map encodeItem items)) + 0) at 1 by lia.
  rewrite lookup_after_prefix. simpl. by rewrite Hreject.
Qed.

Lemma first_refused_item_refuses_batch_witness :
  parseTransfers sampleLib ∅
    (concat (map encodeItem [mkTransfer "ETH" addrA "1" None])
     ++ "SEND" :: [addrB; "2"]) 0 []
  = inl (InvalidType "SEND").
Proof.
  apply first_refused_item_refuses_batch; [|reflexivity].
  constructor; [|constructor].
  split; [reflexivity|]. split; [reflexivity|]. left. by split.
Defined.

(** X21. Two ways a validated native item still fails, both recorded as a
    failed entry without moving the nonce. When the amount cannot be
    converted to wei, nothing is submitted and the world is unchanged.
    When the submission is accepted but the await gives no receipt, the
    item has made its two calls and the entry carries the fixed text about
    the receipt. *)
Theorem native_item_failures lib env (w : Wallet) (index : nat) (t : Transfer)
    (nonce : Z) (results : list Entry) (σ : World) :
  t_type t = "ETH" →
  (∀ reason,
     parseEther lib (t_amount t) = Err reason →
     transferItem lib env w index t nonce results σ
     = (Val (results ++ [mkEntry (index + 1) "ETH" (t_to t) (t_amount t) (Failed reason)],
             nonce), σ))
  ∧ (∀ value hash,
       parseEther lib (t_amount t) = Ok value →
       env_sendTransaction env (calls σ) w (mkTx (t_to t) value (Some nonce)) = Ok hash →
       env_wait env
         (calls σ ++ [CSendTransaction (BatchItem index) (mkTx (t_to t) value (Some nonce))])
         hash = Ok None →
       transferItem lib env w index t nonce results σ
       = (Val (results ++ [mkEntry (index + 1) "ETH" (t_to t) (t_amount t)
                             (Failed "Transaction receipt is null or invalid")],
               nonce),
          mkWorld (wallet σ) (tokenMap σ)
            (calls σ ++ [CSendTransaction (BatchItem index)
                           (mkTx (t_to t) value (Some nonce));
                         CWait hash]))).
Proof.
  intros Heth. destruct σ as [current_wallet tm cs]. split.
  - intros reason Hparse. unfold transferItem. unfold_monad. simpl.
    rewrite !decide_True by done. by rewrite Hparse.
  - intros value hash Hparse Hsend Hwait. unfold transferItem. unfold_monad.
    simpl in *. rewrite !decide_True by done. rewrite Hparse. simpl.
    rewrite Hsend. simpl. rewrite Hwait. simpl. rewrite <- app_assoc. reflexivity.
Qed.

Lemma native_item_failures_witness :
  transferItem sampleLib acceptingEnv sampleWallet 0 (mkTransfer "ETH" addrA "1e3" None)
    5 [] walletWorld
  = (Val ([] ++ [mkEntry (0 + 1) "ETH" addrA "1e3"
                   (Failed "invalid FixedNumber string value")], 5%Z),
     walletWorld).
Proof.
  destruct (native_item_failures sampleLib acceptingEnv sampleWallet 0
              (mkTransfer "ETH" addrA "1e3" None) 5 [] walletWorld eq_refl) as [H _].
  by apply H.
Defined.

Lemma reportsFrom_lookup index items entries :
  reportsFrom index items entries →
  ∀ k t, items !! k = Some t →
    ∃ e, entries !! k = Some e ∧ reports (index + k) t e.
Proof.
  revert index entries. induction items as [|t0 items IH]; intros index [|e0 entries];
    simpl; try done.
  intros [Hrep Hrest] [|k] t Hk; simpl in *.
  - injection Hk as <-. exists e0. split; [done|]. by replace (index + 0) with index by lia.
  - destruct (IH _ _ Hrest k t Hk) as (e & He & Hreports). exists e. split; [done|].
    by replace (index + S k) with (S index + k) by lia.
Qed.

(** X16. One entry per item: when no token is registered under the empty
    symbol, the summary of a batch has as many entries as the batch has
    items, and the entry at each position carries that position plus one
    as its number and the recipient and amount of the item at that
    position, whether the item succeeded or failed. *)
Theorem batch_summary_matches_items lib env (transfers : string) (σ σ' : World)
    (w : Wallet) (results : list Entry) :
  wallet σ = Some w →
  truthy (tm_get (tokenMap σ) EmptyString) = false →
  BatchMixedTransferTool_reply lib env transfers σ = (Val (Summary results), σ') →
  ∃ items,
    parseTransfers lib (tokenMap σ) (split " " (trim transfers)) 0 [] = inr items
    ∧ length results = length items
    ∧ ∀ k t, items !! k = Some t →
        ∃ e, results !! k = Some e
             ∧ e_number e = k + 1 ∧ e_to e = t_to t ∧ e_amount e = t_amount t.
Proof.
  intros Hw Hempty Hrun.
  destruct (batch_entries_follow_items _ _ _ _ _ _ _ Hw Hempty Hrun)
    as (items & Hparse & Hreports & Hlen).
  exists items. repeat split; try done.
  intros k t Hk. destruct (reportsFrom_lookup _ _ _ Hreports k t Hk) as (e & He & Hrep).
  exists e. split; [done|]. exact Hrep.
Qed.

Lemma batch_summary_matches_items_witness :
  ∃ items,
    parseTransfers sampleLib (tokenMap walletWorld) (split " " (trim twoNative)) 0 []
    = inr items
    ∧ length [mkEntry 1 "ETH" addrA "1" (Failed "insufficient funds");
              mkEntry 2 "ETH" addrB "2" (Successful "0xhash1")]
      = length items
    ∧ ∀ k t, items !! k = Some t →
        ∃ e, [mkEntry 1 "ETH" addrA "1" (Failed "insufficient funds");
              mkEntry 2 "ETH" addrB "2" (Successful "0xhash1")] !! k = Some e
             ∧ e_number e = k + 1 ∧ e_to e = t_to t ∧ e_amount e = t_amount t.
Proof.
  apply (batch_summary_matches_items sampleLib firstRejectedEnv twoNative walletWorld
           (snd (BatchMixedTransferTool_reply sampleLib firstRejectedEnv twoNative
                   walletWorld)) sampleWallet);
    [reflexivity|reflexivity|vm_compute; reflexivity].
Defined.
